(** * django-iipimage: storage and field helpers

    A shallow embedding of [iipimage/storage.py] and [iipimage/fields.py]
    (Python 2).  Python strings are lists of characters, the file system is
    a finite map from path names to files, and every function that can raise
    returns a [result].  Code that touches the file system threads a [world]
    (the files together with a log of the [os.remove] calls made). *)

From Stdlib Require Import ZArith Ascii String List Lia DecimalString SpecFloat.
From Stdlib Require Import DecimalPos DecimalZ.
From stdpp Require Import base option list gmap strings.

Local Open Scope Z_scope.

(** ** Python values used by the two modules *)

(** A Python [str]/[unicode] value: the list of its characters. *)
Abbreviation str := (list ascii).

(** String literals. *)
Definition py (s : string) : str := list_ascii_of_string s.

(** The double-quote character, which the command templates contain. *)
Definition dquote : str := [ascii_of_nat 34].

(** [str(n)] for a Python integer. *)
Definition str_of_int (n : Z) : str := py (NilZero.string_of_int (Z.to_int n)).

(** The exceptions that the code raises, catches or lets through. *)
Inductive exn : Type :=
| CalledProcessError (returncode : Z) (cmd : str)
| OSError (errno : Z) (filename : str)
| IOError (message : str)
| ValueError (message : str)
| TypeError (message : str)
| OverflowError (message : str)
| UnicodeError (message : str)
| RequestException (message : str)
| DoesNotExist.

Definition ENOENT : Z := 2.

(** [str(e)] for a [CalledProcessError] (subprocess.py); the other
    exceptions print their message. *)
Definition str_of_exn (e : exn) : str :=
  match e with
  | CalledProcessError rc cmd =>
      py "Command '" ++ cmd ++ py "' returned non-zero exit status " ++ str_of_int rc
  | OSError errno f =>
      py "[Errno " ++ str_of_int errno ++ py "] No such file or directory: '" ++ f ++ py "'"
  | IOError m | ValueError m | TypeError m | OverflowError m
  | UnicodeError m | RequestException m => m
  | DoesNotExist => py "matching query does not exist."
  end.

Inductive result (A : Type) : Type :=
| Return (a : A)
| Raise (e : exn).
Arguments Return {A} a.
Arguments Raise {A} e.

Definition is_raise {A} (r : result A) : bool :=
  match r with Raise _ => true | Return _ => false end.

(** ** The file system and the calls made on it *)

Record file : Type := File { contents : str; mode : option Z }.

Inductive syscall : Type :=
| Removed (path : str)
| RemoveFailed (path : str).

Record world : Type := World {
  files : gmap str file;
  calls : list syscall
}.

(** Stateful, fallible code. *)
Definition M (A : Type) : Type := world -> result A * world.

Definition ret {A} (a : A) : M A := fun w => (Return a, w).
Definition raise {A} (e : exn) : M A := fun w => (Raise e, w).
Definition bind {A B} (m : M A) (k : A -> M B) : M B :=
  fun w => match m w with
           | (Return a, w1) => k a w1
           | (Raise e, w1) => (Raise e, w1)
           end.

Notation "x <- m ;; k" := (bind m (fun x => k))
  (at level 100, m at next level, right associativity).
Notation "m ;;; k" := (bind m (fun _ => k))
  (at level 100, right associativity).

(** [try: body except <handler>: ... finally: final].  [handler e] is
    [None] when no [except] clause matches [e].  The [finally] block runs on
    every path, and an exception it raises replaces the pending one. *)
Definition try_except_finally {A}
    (body : M A) (handler : exn -> option (M A)) (final : M unit) : M A :=
  fun w =>
    let '(r1, w1) := body w in
    let '(r2, w2) :=
      match r1 with
      | Return a => (Return a, w1)
      | Raise e =>
          match handler e with
          | Some h => h w1
          | None => (Raise e, w1)
          end
      end in
    let '(r3, w3) := final w2 in
    match r3 with
    | Return _ => (r2, w3)
    | Raise e => (Raise e, w3)
    end.

(** [os.remove(path)]: unlink the file, or fail with ENOENT when there is
    none. *)
Definition os_remove (path : str) : M unit :=
  fun w =>
    match files w !! path with
    | Some _ => (Return tt, World (delete path (files w)) (calls w ++ [Removed path]))
    | None => (Raise (OSError ENOENT path), World (files w) (calls w ++ [RemoveFailed path]))
    end.

(** [os.chmod(path, mode)]. *)
Definition os_chmod (path : str) (m : Z) : M unit :=
  fun w =>
    match files w !! path with
    | Some f => (Return tt, World (<[path := File (contents f) (Some m)]> (files w)) (calls w))
    | None => (Raise (OSError ENOENT path), w)
    end.

(** How many times [path] was unlinked, and how many times [os.remove] was
    called on it. *)
Definition is_removed (path : str) (c : syscall) : bool :=
  match c with
  | Removed p => bool_decide (p = path)
  | RemoveFailed _ => false
  end.

Definition is_remove_call (path : str) (c : syscall) : bool :=
  match c with
  | Removed p | RemoveFailed p => bool_decide (p = path)
  end.

Fixpoint count_calls (f : syscall -> bool) (l : list syscall) : nat :=
  match l with
  | [] => 0%nat
  | c :: l' => ((if f c then 1 else 0) + count_calls f l')%nat
  end.

Definition removals (path : str) (l : list syscall) : nat :=
  count_calls (is_removed path) l.

Definition remove_attempts (path : str) (l : list syscall) : nat :=
  count_calls (is_remove_call path) l.

(** ** [posixpath]: the three path functions that [_convert_image] uses *)

Module posixpath.

Definition sep : ascii := "/"%char.
Definition extsep : ascii := "."%char.

(** [s.rfind(c)]: the index of the last [c] in [s], or [-1]. *)
Fixpoint rfind (c : ascii) (s : str) : Z :=
  match s with
  | [] => -1
  | x :: r =>
      let k := rfind c r in
      if 0 <=? k then k + 1 else if Ascii.eqb x c then 0 else -1
  end.

(** [s.rstrip(c)]. *)
Fixpoint rstrip (c : ascii) (s : str) : str :=
  match s with
  | [] => []
  | x :: r =>
      match rstrip c r with
      | [] => if Ascii.eqb x c then [] else [x]
      | r' => x :: r'
      end
  end.

Definition all_sep (s : str) : bool := forallb (fun x => Ascii.eqb x sep) s.

(** [posixpath.split(p)]. *)
Definition split (p : str) : str * str :=
  let i := Z.to_nat (rfind sep p + 1) in
  let head := take i p in
  let tail := drop i p in
  let head := if negb (bool_decide (head = [])) && negb (all_sep head)
              then rstrip sep head else head in
  (head, tail).

(** [posixpath.splitext(p)] ([genericpath._splitext] with no [altsep]):
    the extension starts at the last dot of the last component, unless that
    component has nothing but dots before it. *)
Definition splitext (p : str) : str * str :=
  let sepIndex := rfind sep p in
  let dotIndex := rfind extsep p in
  if sepIndex <? dotIndex then
    let leading := drop (Z.to_nat (sepIndex + 1)) (take (Z.to_nat dotIndex) p) in
    if existsb (fun x => negb (Ascii.eqb x extsep)) leading
    then (take (Z.to_nat dotIndex) p, drop (Z.to_nat dotIndex) p)
    else (p, [])
  else (p, []).

Definition startswith_sep (b : str) : bool :=
  match b with
  | x :: _ => Ascii.eqb x sep
  | [] => false
  end.

Definition endswith_sep (a : str) : bool := bool_decide (last a = Some sep).

(** [posixpath.join(a, b)]. *)
Definition join (a b : str) : str :=
  if startswith_sep b then b
  else if bool_decide (a = []) || endswith_sep a then a ++ b
  else a ++ sep :: b.

End posixpath.

(** ** [iipimage/storage.py] *)

(** The settings the module reads. *)
Record settings : Type := Settings {
  FILE_UPLOAD_PERMISSIONS : option Z
}.

(** Command-line invocations of image conversion: each template applied to
    its two [%s] arguments. *)
Definition CONVERT_TO_JP2 (a b : str) : str :=
  py "kdu_compress -i " ++ a ++ py " -o " ++ b ++
  py " -rate -,4,2.34,1.36,0.797,0.466,0.272,0.159,0.0929,0.0543,0.0317,0.0185 Stiles=" ++
  dquote ++ py "{1024,1024}" ++ dquote ++ py " Cblk=" ++ dquote ++ py "{64,64}" ++ dquote ++
  py " Creversible=no Clevels=5 Corder=RPCL Cmodes=BYPASS".

Definition CONVERT_TO_JP2_LOSSLESS (a b : str) : str :=
  py "kdu_compress -i " ++ dquote ++ a ++ dquote ++ py " -o " ++ dquote ++ b ++ dquote ++
  py " -rate - Creversible=yes Clevels=5 Stiles=" ++
  dquote ++ py "{1024,1024}" ++ dquote ++ py " Cblk=" ++ dquote ++ py "{64,64}" ++ dquote ++
  py " Corder=RPCL".

Definition CONVERT_TO_TIFF (a b : str) : str :=
  py "convert -compress None " ++ a ++ py " " ++ b.

(** The storage object: [FileSystemStorage]'s two attributes. *)
Record ImageStorage : Type := Storage {
  location : str;
  base_url : option str
}.

(** [FileSystemStorage.path(name)], for a [location] and a [name] that are
    already normalised. *)
Definition path (self : ImageStorage) (name : str) : str :=
  posixpath.join (location self) name.

(** What happens when a command line is handed to
    [subprocess.check_call(shlex.split(command.encode('ascii')))]: either the
    process runs and exits with a status, or no process runs because the
    encoding, the splitting or the spawn raised. *)
Inductive launch_error : Type :=
| EncodeFailed
| SplitFailed
| SpawnFailed (errno : Z).

Inductive outcome : Type :=
| Exited (status : Z)
| NotRun (e : launch_error).

Definition exn_of_launch_error (e : launch_error) : exn :=
  match e with
  | EncodeFailed => UnicodeError (py "'ascii' codec can't encode character")
  | SplitFailed => ValueError (py "No closing quotation")
  | SpawnFailed errno => OSError errno []
  end.

(** The external programs: what a command line does to the files. *)
Definition executor : Type := str -> gmap str file -> outcome * gmap str file.

Section Storage.

Variable execute : executor.
Variable conf : settings.

(** [subprocess.check_call] on the split command line. *)
Definition check_call (command : str) : M unit :=
  fun w =>
    let '(o, fs) := execute command (files w) in
    let w1 := World fs (calls w) in
    match o with
    | Exited 0 => (Return tt, w1)
    | Exited rc => (Raise (CalledProcessError rc command), w1)
    | NotRun e => (Raise (exn_of_launch_error e), w1)
    end.

(** [ImageStorage._call_image_conversion]. *)
Definition _call_image_conversion (command input_path : str) : M unit :=
  try_except_finally
    (check_call command)
    (fun e =>
       match e with
       | CalledProcessError _ _ =>
           Some (os_remove input_path ;;;
                 raise (IOError (py "Failed to convert the page image to .jp2: "
                                 ++ str_of_exn e)))
       | _ => None
       end)
    (os_remove input_path).

(** The name of the intermediate TIFF. *)
Definition temp_file_of (full_path : str) : str :=
  let '(dir_name, file_name) := posixpath.split full_path in
  let '(file_root, file_ext) := posixpath.splitext file_name in
  posixpath.join dir_name (file_root ++ py "_1.tif").

(** [ImageStorage._convert_image]. *)
Definition _convert_image (self : ImageStorage) (name : str) : M unit :=
  let full_path := path self name in
  let temp_file := temp_file_of full_path in
  let command := CONVERT_TO_TIFF full_path temp_file in
  _call_image_conversion command full_path ;;;
  let command := CONVERT_TO_JP2 temp_file full_path in
  _call_image_conversion command temp_file ;;;
  match FILE_UPLOAD_PERMISSIONS conf with
  | Some perms => os_chmod full_path perms
  | None => ret tt
  end.

End Storage.

(** [ImageStorage.full_base_url]. *)
Definition full_base_url (self : ImageStorage) (name : str) : result str :=
  match base_url self with
  | None => Raise (ValueError (py "This file is not accessible via a URL."))
  | Some b => Return (b ++ py "?FIF=" ++ name)
  end.

(** [ImageStorage.url]. *)
Definition url (self : ImageStorage) (name : str) : result str :=
  match full_base_url self name with
  | Return u => Return (u ++ py "&RST=*&QLT=100&CVT=JPEG")
  | Raise e => Raise e
  end.

(** *** Upload paths *)

(** A UUID is its 128-bit integer ([UUID.int], below [2^128]). *)
Definition hex_char (d : N) : ascii :=
  match d with
  | 0 => "0" | 1 => "1" | 2 => "2" | 3 => "3" | 4 => "4" | 5 => "5"
  | 6 => "6" | 7 => "7" | 8 => "8" | 9 => "9" | 10 => "a" | 11 => "b"
  | 12 => "c" | 13 => "d" | 14 => "e" | _ => "f"
  end%N%char.

(** The [k] low hexadecimal digits of [n], most significant first:
    ['%0kx' % n] for [n < 16^k]. *)
Fixpoint hex_digits (k : nat) (n : N) : str :=
  match k with
  | O => []
  | S k' => hex_digits k' (n / 16)%N ++ [hex_char (n mod 16)%N]
  end.

(** [str(uuid)] ([UUID.__str__]): the 32 digits in groups of 8, 4, 4, 4
    and 12. *)
Definition hyphenate (hex : str) : str :=
  take 8 hex ++ py "-" ++ take 4 (drop 8 hex) ++ py "-" ++ take 4 (drop 12 hex)
  ++ py "-" ++ take 4 (drop 16 hex) ++ py "-" ++ drop 20 hex.

Definition str_of_uuid (u : N) : str := hyphenate (hex_digits 32 u).

(** [generate_new_image_path], given the UUID that [uuid.uuid4()] draws. *)
Definition generate_new_image_path (uuid4 : N) : str :=
  let filename := str_of_uuid uuid4 in
  let directory := take 1 filename in
  directory ++ py "/" ++ filename ++ py ".jp2".

(** A model instance, as far as [get_image_path] looks at it. *)
Record instance : Type := Instance { id : option Z }.

(** The table behind [instance._default_manager]: primary key to the stored
    image name ([None] or the empty string when the record has no image). *)
Abbreviation table := (gmap Z (option str)).

(** [original.image.delete(save=False)]: Django's [FieldFile.delete] asks
    the storage to delete the file, and [FileSystemStorage.delete] removes it
    when it exists. *)
Definition FieldFile_delete (storage : ImageStorage) (name : str) : M unit :=
  fun w =>
    let full := path storage name in
    match files w !! full with
    | Some _ => os_remove full w
    | None => (Return tt, w)
    end.

(** Truth value of [instance.id] and of [image_path]. *)
Definition truthy_id (i : option Z) : option Z :=
  match i with
  | Some 0 | None => None
  | Some pk => Some pk
  end.

Definition falsy_name (n : option str) : bool :=
  match n with
  | None | Some [] => true
  | Some _ => false
  end.

(** [get_image_path]. *)
Definition get_image_path (storage : ImageStorage) (objects : table)
    (inst : instance) (filename : str) (uuid4 : N) : M str :=
  match truthy_id (id inst) with
  | Some pk =>
      match objects !! pk with
      | None => raise DoesNotExist
      | Some original_image_name =>
          if falsy_name original_image_name
          then ret (generate_new_image_path uuid4)
          else
            let image_path := default [] original_image_name in
            FieldFile_delete storage image_path ;;;
            ret image_path
      end
  | None => ret (generate_new_image_path uuid4)
  end.




(** ** Builtins used by [iipimage/fields.py] *)

(** The arguments that [thumbnail_url] may be given.  A float is an IEEE
    value: a zero, an infinity, a NaN or [(-1)^s * m * 2^e]. *)
Inductive value : Type :=
| VNone
| VInt (n : Z)
| VFloat (f : spec_float)
| VStr (s : str).

(** C's [isspace], which [int()] and the pattern [\s] use. *)
Definition is_space (c : ascii) : bool :=
  match c with
  | " " | "009" | "010" | "011" | "012" | "013" => true
  | _ => false
  end%char.

(** Whitespace for [unicode.strip()], characters being code points below
    256: the above and the separators 28-31, 133 and 160. *)
Definition is_unicode_space (c : ascii) : bool :=
  is_space c ||
  match c with
  | "028" | "029" | "030" | "031" | "133" | "160" => true
  | _ => false
  end%char.

Definition is_digit (c : ascii) : bool :=
  match c with
  | "0" | "1" | "2" | "3" | "4" | "5" | "6" | "7" | "8" | "9" => true
  | _ => false
  end%char.

Definition digit_value (c : ascii) : Z := Z.of_nat (nat_of_ascii c) - 48.

Fixpoint skip (f : ascii -> bool) (s : str) : str :=
  match s with
  | c :: s' => if f c then skip f s' else s
  | [] => []
  end.

Fixpoint span (f : ascii -> bool) (s : str) : str * str :=
  match s with
  | c :: s' => if f c then let '(a, b) := span f s' in (c :: a, b) else ([], s)
  | [] => ([], [])
  end.

Definition decimal_value (ds : str) : Z :=
  fold_left (fun acc c => 10 * acc + digit_value c) ds 0.

(** [s.strip()]. *)
Definition strip (s : str) : str :=
  rev (skip is_unicode_space (rev (skip is_unicode_space s))).

Definition invalid_literal (s : str) : exn :=
  ValueError (py "invalid literal for int() with base 10: '" ++ s ++ py "'").

(** [int(s)] for a string (CPython 2, base 10): blanks, an optional sign,
    blanks, at least one digit, blanks. *)
Definition int_of_str (s : str) : result Z :=
  let s1 := skip is_space s in
  let '(negative, s2) :=
    match s1 with
    | "-"%char :: r => (true, r)
    | "+"%char :: r => (false, r)
    | _ => (false, s1)
    end in
  let '(ds, rest) := span is_digit (skip is_space s2) in
  match ds, skip is_space rest with
  | _ :: _, [] => Return (if negative then - decimal_value ds else decimal_value ds)
  | _, _ => Raise (invalid_literal s)
  end.

(** [int(f)] for a float: truncation towards zero. *)
Definition int_of_float (f : spec_float) : result Z :=
  match f with
  | S754_zero _ => Return 0
  | S754_infinity _ => Raise (OverflowError (py "cannot convert float infinity to integer"))
  | S754_nan => Raise (ValueError (py "cannot convert float NaN to integer"))
  | S754_finite s m e =>
      let magnitude := Z.shiftl (Z.pos m) e in
      Return (if s then - magnitude else magnitude)
  end.

(** The builtin [int(x)]. *)
Definition int (x : value) : result Z :=
  match x with
  | VNone =>
      Raise (TypeError (py "int() argument must be a string or a number, not 'NoneType'"))
  | VInt n => Return n
  | VFloat f => int_of_float f
  | VStr s => int_of_str s
  end.

(** ** [re]: the fragment of the pattern language that the module uses *)

Module re.

(** A pattern is a sequence of items: literal text, a repeated character
    class (greedy or lazy, possibly a capturing group), or [$].  The
    leading [^] of a pattern is implied by [re.match]. *)
Inductive item : Type :=
| Lit (text : str)
| Rep (cls : ascii -> bool) (lo : nat) (hi : option nat) (greedy capture : bool)
| Eos.

(** [.], [\d] and [\s] without flags. *)
Definition dot (c : ascii) : bool := negb (Ascii.eqb c "010"%char).
Definition digit (c : ascii) : bool := is_digit c.
Definition space (c : ascii) : bool := is_space c.

Definition below (hi : option nat) (n : nat) : bool :=
  match hi with
  | None => true
  | Some h => (n <? h)%nat
  end.

Fixpoint starts_with (l t : str) : bool :=
  match l, t with
  | [], _ => true
  | a :: l', b :: t' => Ascii.eqb a b && starts_with l' t'
  | _ :: _, [] => false
  end.

(** [$]: at the end of the text, or just before a final line feed. *)
Definition at_end (t : str) : bool :=
  match t with
  | [] => true
  | [c] => Ascii.eqb c "010"%char
  | _ => false
  end.

(** The groups of a match: a capturing repetition adds its text. *)
Definition group (capture : bool) (g : str) (r : list str) : list str :=
  if capture then g :: r else r.

(** Leave a repetition after [taken] and go on with the rest [k] of the
    pattern. *)
Definition leave (lo : nat) (capture : bool) (k : str -> option (list str))
    (taken t : str) : option (list str) :=
  if (lo <=? length taken)%nat
  then group capture taken <$> k t
  else None.

(** The text [rest] does not go on with a character of the class. *)
Definition run_ends (cls : ascii -> bool) (rest : str) : Prop :=
  match rest with
  | [] => True
  | c :: _ => cls c = false
  end.

(** A repetition, by backtracking: a greedy one first tries to take one
    more character, a lazy one first tries to leave. *)
Fixpoint rep (cls : ascii -> bool) (lo : nat) (hi : option nat)
    (greedy capture : bool) (k : str -> option (list str))
    (taken t : str) {struct t} : option (list str) :=
  match t with
  | c :: t' =>
      if cls c && below hi (length taken) then
        if greedy then
          match rep cls lo hi greedy capture k (taken ++ [c]) t' with
          | Some r => Some r
          | None => leave lo capture k taken t
          end
        else
          match leave lo capture k taken t with
          | Some r => Some r
          | None => rep cls lo hi greedy capture k (taken ++ [c]) t'
          end
      else leave lo capture k taken t
  | [] => leave lo capture k taken t
  end.

(** [re.match(pattern, t)]: the groups of the first match found, in
    order. *)
Fixpoint exec (pattern : list item) (t : str) : option (list str) :=
  match pattern with
  | [] => Some []
  | Lit l :: p => if starts_with l t then exec p (drop (length l) t) else None
  | Rep cls lo hi greedy capture :: p => rep cls lo hi greedy capture (exec p) [] t
  | Eos :: p => if at_end t then exec p t else None
  end.

End re.

(** ** [iipimage/fields.py] *)

Definition rbind {A B} (r : result A) (k : A -> result B) : result B :=
  match r with
  | Return a => k a
  | Raise e => Raise e
  end.

Record ImageFieldFile : Type := FieldFile {
  storage : ImageStorage;
  name : str;
  _dimensions_cache : option (Z * Z)
}.

(** The pattern [^.*?Max-size:(\d+)\s+(\d+).*?$]. *)
Definition max_size_pattern : list re.item :=
  [ re.Rep re.dot 0 None false false;
    re.Lit (py "Max-size:");
    re.Rep re.digit 1 None true true;
    re.Rep re.space 1 None true false;
    re.Rep re.digit 1 None true true;
    re.Rep re.dot 0 None false false;
    re.Eos ].

(** The pattern after its lazy prefix: what must match where [Max-size:]
    starts. *)
Definition tail_pattern : list re.item := tl max_size_pattern.

(** Lines 16 and 20-25 of [_get_image_dimensions]: from the response text
    to the pair that is cached. *)
Definition parse_dimensions (text : str) : result (Z * Z) :=
  match re.exec max_size_pattern (strip text) with
  | Some [g1; g2] =>
      rbind (int (VStr g1)) (fun width =>
      rbind (int (VStr g2)) (fun height =>
      Return (width, height)))
  | _ => Return (0, 0)
  end.

Section Fields.

(** [requests.get(url).text], or the exception that the request raises. *)
Variable requests_get : str -> result str.

(** [ImageFieldFile._get_image_dimensions]; [sent] lists the requests made
    so far. *)
Definition _get_image_dimensions (self : ImageFieldFile) (sent : list str)
    : result (Z * Z) * ImageFieldFile * list str :=
  match _dimensions_cache self with
  | Some cached => (Return cached, self, sent)
  | None =>
      match full_base_url (storage self) (name self) with
      | Raise e => (Raise e, self, sent)
      | Return base =>
          let dimension_url := base ++ py "&OBJ=Max-size" in
          match requests_get dimension_url with
          | Raise e => (Raise e, self, sent ++ [dimension_url])
          | Return text =>
              match parse_dimensions text with
              | Raise e => (Raise e, self, sent ++ [dimension_url])
              | Return dims =>
                  (Return dims,
                   FieldFile (storage self) (name self) (Some dims),
                   sent ++ [dimension_url])
              end
          end
      end
  end.

(** [n] successive calls on the same object. *)
Fixpoint dimensions_calls (n : nat) (self : ImageFieldFile) (sent : list str)
    : list (result (Z * Z)) * ImageFieldFile * list str :=
  match n with
  | O => ([], self, sent)
  | S n' =>
      let '(r, self1, sent1) := _get_image_dimensions self sent in
      let '(rs, self2, sent2) := dimensions_calls n' self1 sent1 in
      (r :: rs, self2, sent2)
  end.

End Fields.

(** The property [ImageFieldFile.full_base_url]. *)
Definition field_full_base_url (self : ImageFieldFile) : result str :=
  full_base_url (storage self) (name self).

(** One [try: x = prefix % str(int(x)) except (TypeError, ValueError): x = ''];
    [UnicodeError] is a subclass of [ValueError]. *)
Definition size_segment (prefix : str) (x : value) : result str :=
  match int x with
  | Return n => Return (prefix ++ str_of_int n)
  | Raise (TypeError _) | Raise (ValueError _) | Raise (UnicodeError _) => Return []
  | Raise e => Raise e
  end.

(** [ImageFieldFile.thumbnail_url]. *)
Definition thumbnail_url (self : ImageFieldFile) (height width : value) : result str :=
  rbind (size_segment (py "&HEI=") height) (fun height =>
  rbind (size_segment (py "&WID=") width) (fun width =>
  rbind (field_full_base_url self) (fun base =>
  Return (base ++ height ++ width ++ py "&CVT=JPEG")))).

(** ** The shape of a generated key *)

Definition is_hex (c : ascii) : bool :=
  is_digit c ||
  match c with
  | "a" | "b" | "c" | "d" | "e" | "f" => true
  | _ => false
  end%char.

Definition is_hex_or_dash (c : ascii) : bool := is_hex c || Ascii.eqb c "-"%char.

(** The value of a hexadecimal digit. *)
Definition hex_value (c : ascii) : N :=
  (N_of_ascii c - (if is_digit c then 48 else 87))%N.

(** The pattern [^[0-9a-f]/[0-9a-f-]{36}\.jp2$]. *)
Definition key_pattern : list re.item :=
  [ re.Rep is_hex 1 (Some 1%nat) true false;
    re.Lit (py "/");
    re.Rep is_hex_or_dash 36 (Some 36%nat) true false;
    re.Lit (py ".jp2");
    re.Eos ].

(** ** The response format, as the specification words it *)

Definition lf : ascii := "010"%char.

(** A text without a line feed. *)
Definition one_line (t : str) : Prop := Forall (fun c => re.dot c = true) t.

(** "Anything, then literal [Max-size:], then whitespace-separated
    [<width> <height>], then anything": [t] is [pre], the literal, the digits
    [w], the blanks [ws], the digits [h] and [post]. *)
Definition max_size_shape (t pre w ws h post : str) : Prop :=
  t = pre ++ py "Max-size:" ++ w ++ ws ++ h ++ post /\
  w <> [] /\ Forall (fun c => is_digit c = true) w /\
  ws <> [] /\ Forall (fun c => is_space c = true) ws /\
  h <> [] /\ Forall (fun c => is_digit c = true) h.

(** The segment that [thumbnail_url] adds for a value: the prefix and the
    integer when [int] accepts the value, nothing otherwise. *)
Definition segment (prefix : str) (x : value) : str :=
  match int x with
  | Return n => prefix ++ str_of_int n
  | Raise _ => []
  end.

(** ** Sample data *)

Module sample.

Definition store : ImageStorage :=
  Storage (py "/srv/images") (Some (py "http://example.org/iip")).

Definition unconfigured : ImageStorage := Storage (py "/srv/images") None.

Definition key : str := py "a/abc.jp2".
Definition final : str := py "/srv/images/a/abc.jp2".
Definition intermediate : str := py "/srv/images/a/abc_1.tif".

Definition upload : file := File (py "PNG bytes") (Some 420).

(** A disk that holds one uploaded image. *)
Definition disk : world := World {[ final := upload ]} [].

(** Tools that work: [convert] writes the TIFF, [kdu_compress] the JP2. *)
Definition tools : executor :=
  fun command fs =>
    match command with
    | "c"%char :: _ => (Exited 0, <[intermediate := File (py "TIFF bytes") None]> fs)
    | "k"%char :: _ => (Exited 0, <[final := File (py "JP2 bytes") None]> fs)
    | _ => (NotRun (SpawnFailed ENOENT), fs)
    end.

(** A tool that exits with status 1 and writes nothing. *)
Definition failing : executor := fun _ fs => (Exited 1, fs).

(** No such program. *)
Definition missing : executor := fun _ fs => (NotRun (SpawnFailed ENOENT), fs).

Definition conf : settings := Settings (Some 420).

(** One record, number 7, whose image is stored under [key]. *)
Definition objects : table := {[ 7 := Some key ]}.

(** An image server that answers every request with the same size. *)
Definition server : str -> result str :=
  fun _ => Return (py "Max-size:1024 768").

(** One that says more, on one line. *)
Definition verbose : str -> result str :=
  fun _ => Return (py "foo Max-size:1024 768 bar").

(** One that answers with two lines. *)
Definition two_lines : str -> result str :=
  fun _ => Return (py "IIP" ++ [lf] ++ py "Max-size:1024 768").

Definition handle : ImageFieldFile := FieldFile store key None.

Definition infinity : value := VFloat (S754_infinity false).

End sample.

(** ** Saving an upload *)

(** [FileSystemStorage._save(name, content)], the method of the base class
    that [ImageStorage._save] calls first: it stores the upload and returns
    the name it used. *)
Definition base_save : Type := ImageStorage -> str -> str -> M str.

Section Save.

Variable execute : executor.
Variable conf : settings.
Variable super_save : base_save.

(** [ImageStorage._save]. *)
Definition _save (self : ImageStorage) (name content : str) : M str :=
  name <- super_save self name content ;;
  _convert_image execute conf self name ;;;
  ret name.

End Save.

(** What a stage raises, and which [os.remove] calls it makes, when its
    command does not exit with status 0 and the input file is in place. *)
Definition stage_failure (o : outcome) (input_path : str) : exn :=
  match o with
  | Exited _ => OSError ENOENT input_path
  | NotRun e => exn_of_launch_error e
  end.

Definition stage_failure_calls (o : outcome) (input_path : str) : list syscall :=
  match o with
  | Exited _ => [Removed input_path; RemoveFailed input_path]
  | NotRun _ => [Removed input_path]
  end.

(** The mode that [_convert_image] leaves on the converted file. *)
Definition with_permissions (conf : settings) (f : file) : file :=
  match FILE_UPLOAD_PERMISSIONS conf with
  | Some perms => File (contents f) (Some perms)
  | None => f
  end.

(** The characters of a size in a URL: digits and the minus sign. *)
Definition is_number_char (c : ascii) : bool := is_digit c || Ascii.eqb c "-"%char.

(** A size segment: nothing, or the prefix and a number. *)
Definition clean_segment (prefix seg : str) : Prop :=
  seg = [] \/
  exists digits, seg = prefix ++ digits /\ digits <> [] /\
                 Forall (fun c => is_number_char c = true) digits.

(** The URL of the dimension request of a field file. *)
Definition dimension_url (b : str) (self : ImageFieldFile) : str :=
  b ++ py "?FIF=" ++ name self ++ py "&OBJ=Max-size".

(** ** More sample data *)

Module demo.

(** A base class that writes the upload under the name it is given. *)
Definition write_upload : base_save :=
  fun self name content w =>
    (Return name, World (<[path self name := File content None]> (files w)) (calls w)).

(** A base class that cannot write. *)
Definition read_only : base_save :=
  fun _ name _ w => (Raise (OSError 13 name), w).

(** [convert] works, [kdu_compress] exits with status 1. *)
Definition half_working : executor :=
  fun command fs =>
    match command with
    | "c"%char :: _ =>
        (Exited 0, <[sample.intermediate := File (py "TIFF bytes") None]> fs)
    | _ => (Exited 1, fs)
    end.

(** A server that cannot be reached. *)
Definition unreachable : str -> result str :=
  fun _ => Raise (RequestException (py "Connection refused")).

(** The answer of an image server, with its line end. *)
Definition crlf_server : str -> result str :=
  fun _ => Return (py "Max-size:1024 768" ++ [ascii_of_nat 13; ascii_of_nat 10]).

Definition empty_disk : world := World ∅ [].

End demo.

(** * Properties *)

(** ** The definitions at work *)

Example temp_file_of_upload : temp_file_of sample.final = sample.intermediate.
Proof. reflexivity. Qed.

Example temp_file_of_two_dots :
  temp_file_of (py "/srv/images/a/scan.tar.gz") = py "/srv/images/a/scan.tar_1.tif".
Proof. reflexivity. Qed.

Example path_of_key : path sample.store sample.key = sample.final.
Proof. reflexivity. Qed.

Example generated_key :
  generate_new_image_path 0x1234567890abcdef1234567890abcdef
  = py "1/12345678-90ab-cdef-1234-567890abcdef.jp2".
Proof. reflexivity. Qed.

Example int_of_numeric_string : int (VStr (py " 42 ")) = Return 42.
Proof. reflexivity. Qed.

Example int_of_negative_string : int (VStr (py "-7")) = Return (-7).
Proof. reflexivity. Qed.

Example int_of_float_string : is_raise (int (VStr (py "3.5"))) = true.
Proof. reflexivity. Qed.

Example int_of_text : is_raise (int (VStr (py "abc"))) = true.
Proof. reflexivity. Qed.

(** [int(-3.5)], the float being [-7 * 2^-1]. *)
Example int_of_negative_float : int (VFloat (S754_finite true 7 (-1))) = Return (-3).
Proof. reflexivity. Qed.

Example thumbnail_with_both :
  thumbnail_url sample.handle (VInt 150) (VStr (py "200"))
  = Return (py "http://example.org/iip?FIF=a/abc.jp2&HEI=150&WID=200&CVT=JPEG").
Proof. reflexivity. Qed.

Example thumbnail_with_none :
  thumbnail_url sample.handle VNone (VStr (py "wide"))
  = Return (py "http://example.org/iip?FIF=a/abc.jp2&CVT=JPEG").
Proof. reflexivity. Qed.

Example parse_well_formed :
  parse_dimensions (py "foo Max-size:1024 768 bar") = Return (1024, 768).
Proof. reflexivity. Qed.

Example parse_first_of_two :
  parse_dimensions (py "Max-size:x Max-size:12   34 Max-size:5 6") = Return (12, 34).
Proof. reflexivity. Qed.

Example parse_empty : parse_dimensions [] = Return (0, 0).
Proof. reflexivity. Qed.

Example parse_other_text : parse_dimensions (py "Error: no such file") = Return (0, 0).
Proof. reflexivity. Qed.

(** ** Paths *)

Section PathFacts.

Import posixpath.

Lemma rfind_bounds c (t : str) : -1 <= rfind c t < Z.of_nat (length t).
Proof.
  induction t as [|x t IH]; simpl; [lia|].
  destruct (Z.leb_spec 0 (rfind c t)); [lia|].
  destruct (Ascii.eqb x c); lia.
Qed.

Lemma rfind_absent c (t : str) : rfind c t = -1 -> c ∉ t.
Proof.
  induction t as [|x t IH]; simpl; intros H; [apply not_elem_of_nil|].
  destruct (Z.leb_spec 0 (rfind c t)) as [Hk|Hk].
  - pose proof (rfind_bounds c t). lia.
  - destruct (Ascii.eqb_spec x c) as [->|Hx]; [lia|].
    apply not_elem_of_cons. split; [congruence|]. apply IH.
    pose proof (rfind_bounds c t). lia.
Qed.

Lemma rfind_present c (t : str) :
  0 <= rfind c t ->
  exists a b, t = a ++ c :: b /\ length a = Z.to_nat (rfind c t) /\ c ∉ b.
Proof.
  induction t as [|x t IH]; simpl; [lia|].
  destruct (Z.leb_spec 0 (rfind c t)) as [Hk|Hk]; intros H.
  - destruct (IH Hk) as (a & b & -> & Hlen & Hb).
    exists (x :: a), b. repeat split; [|done]. simpl. lia.
  - destruct (Ascii.eqb_spec x c) as [->|Hx]; [|lia].
    exists [], t. repeat split. apply rfind_absent.
    pose proof (rfind_bounds c t). lia.
Qed.

Lemma rfind_app_absent c (a b : str) : c ∉ b -> rfind c (a ++ b) = rfind c a.
Proof.
  intros Hb. induction a as [|x a IH]; simpl.
  - induction b as [|y b IHb]; [done|].
    apply not_elem_of_cons in Hb as [Hy Hb]. simpl. rewrite (IHb Hb). simpl.
    destruct (Ascii.eqb_spec y c); congruence.
  - by rewrite IH.
Qed.

Lemma rfind_snoc c (a : str) : rfind c (a ++ [c]) = Z.of_nat (length a).
Proof.
  induction a as [|x a IH]; simpl.
  - by rewrite Ascii.eqb_refl.
  - rewrite IH. destruct (Z.leb_spec 0 (Z.of_nat (length a))); lia.
Qed.

(** The last component of a path: the second half of [split]. *)
Lemma split_tail (p : str) : (split p).2 = drop (Z.to_nat (rfind sep p + 1)) p.
Proof. reflexivity. Qed.

Lemma split_tail_no_sep (p : str) : sep ∉ (split p).2.
Proof.
  rewrite split_tail.
  destruct (Z.leb_spec 0 (rfind sep p)) as [Hk|Hk].
  - destruct (rfind_present _ _ Hk) as (a & b & Hp & Hlen & Hb).
    rewrite Hp at 2.
    replace (Z.to_nat (rfind sep p + 1)) with (length (a ++ [sep]))
      by (rewrite length_app; simpl; lia).
    by rewrite (cons_middle sep a b), app_assoc, drop_app_length.
  - pose proof (rfind_bounds sep p).
    assert (rfind sep p = -1) as Hm by lia. rewrite Hm. simpl.
    by apply rfind_absent.
Qed.

Lemma split_tail_after_sep (a b : str) : sep ∉ b -> (split (a ++ sep :: b)).2 = b.
Proof.
  intros Hb. rewrite split_tail.
  rewrite (cons_middle sep a b), app_assoc, (rfind_app_absent _ _ _ Hb), rfind_snoc.
  replace (Z.to_nat (Z.of_nat (length a) + 1)) with (length (a ++ [sep]))
    by (rewrite length_app; simpl; lia).
  by rewrite drop_app_length.
Qed.

Lemma split_tail_whole (b : str) : sep ∉ b -> (split b).2 = b.
Proof.
  intros Hb. rewrite split_tail.
  pose proof (rfind_app_absent sep [] b Hb) as H. simpl in H. by rewrite H.
Qed.

Lemma join_tail (a b : str) : b ≠ [] -> sep ∉ b -> (split (join a b)).2 = b.
Proof.
  intros Hne Hb. unfold join.
  assert (startswith_sep b = false) as ->.
  { destruct b as [|x b]; [done|]. simpl.
    apply not_elem_of_cons in Hb as [Hx _].
    destruct (Ascii.eqb_spec x sep); congruence. }
  destruct (bool_decide (a = []) || endswith_sep a) eqn:Ha.
  - apply orb_true_iff in Ha as [Ha|Ha].
    + apply bool_decide_eq_true in Ha as ->. by apply split_tail_whole.
    + unfold endswith_sep in Ha. apply bool_decide_eq_true in Ha.
      apply last_Some in Ha as [a' ->].
      rewrite <- app_assoc. simpl. by apply split_tail_after_sep.
  - by apply split_tail_after_sep.
Qed.

Lemma splitext_spec (p : str) :
  p = (splitext p).1 ++ (splitext p).2 /\
  ((splitext p).2 = [] \/ exists e, (splitext p).2 = extsep :: e).
Proof.
  unfold splitext.
  destruct (Z.ltb_spec (rfind sep p) (rfind extsep p)) as [Hlt|Hge]; simpl.
  2: { rewrite app_nil_r. auto. }
  destruct (existsb _ _); simpl.
  2: { rewrite app_nil_r. auto. }
  split; [by rewrite take_drop|]. right.
  pose proof (rfind_bounds sep p).
  destruct (rfind_present extsep p) as (a & b & Hp & Hlen & _); [lia|].
  exists b. rewrite <- Hlen. rewrite Hp at 1. by rewrite drop_app_length.
Qed.

(** The intermediate file never has the name of the final one. *)
Lemma temp_file_of_fresh (full_path : str) : temp_file_of full_path ≠ full_path.
Proof.
  unfold temp_file_of.
  destruct (split full_path) as [dir_name file_name] eqn:Hsplit.
  destruct (splitext file_name) as [file_root file_ext] eqn:Hext.
  pose proof (split_tail_no_sep full_path) as Hno. rewrite Hsplit in Hno. simpl in Hno.
  destruct (splitext_spec file_name) as [Hcat Hdot]. rewrite Hext in Hcat, Hdot.
  simpl in Hcat, Hdot.
  intros Heq.
  assert ((split (join dir_name (file_root ++ py "_1.tif"))).2 = file_root ++ py "_1.tif") as Htail.
  { apply join_tail; [by destruct file_root|].
    rewrite Hcat in Hno. intros Hin. apply elem_of_app in Hin as [Hin|Hin].
    - apply Hno, elem_of_app. by left.
    - vm_compute in Hin. by repeat (apply elem_of_cons in Hin as [Hin|Hin]; [done|]); apply elem_of_nil in Hin. }
  rewrite Heq, Hsplit in Htail. simpl in Htail.
  rewrite Hcat in Htail. apply app_inv_head in Htail.
  destruct Hdot as [->|[e ->]]; discriminate.
Qed.

End PathFacts.

(** ** The file system *)

Lemma os_remove_present (p : str) (w : world) :
  is_Some (files w !! p) ->
  os_remove p w = (Return tt, World (delete p (files w)) (calls w ++ [Removed p])).
Proof. intros [f Hf]. unfold os_remove. by rewrite Hf. Qed.

Lemma os_remove_absent (p : str) (w : world) :
  files w !! p = None ->
  os_remove p w = (Raise (OSError ENOENT p), World (files w) (calls w ++ [RemoveFailed p])).
Proof. intros Hf. unfold os_remove. by rewrite Hf. Qed.

(** Whatever it returns, [os.remove] leaves no file under the name. *)
Lemma os_remove_gone (p : str) (w : world) : files (os_remove p w).2 !! p = None.
Proof.
  unfold os_remove. destruct (files w !! p) eqn:Hf; simpl; [|done].
  apply lookup_delete_eq.
Qed.

Lemma count_calls_app f (l1 l2 : list syscall) :
  count_calls f (l1 ++ l2) = (count_calls f l1 + count_calls f l2)%nat.
Proof. induction l1 as [|c l1 IH]; simpl; [done|]. rewrite IH. lia. Qed.

Lemma removals_snoc_removed (p : str) (l : list syscall) :
  removals p (l ++ [Removed p]) = S (removals p l).
Proof.
  unfold removals. rewrite count_calls_app. simpl.
  rewrite bool_decide_eq_true_2 by done. lia.
Qed.

Lemma removals_snoc_failed (p q : str) (l : list syscall) :
  removals p (l ++ [RemoveFailed q]) = removals p l.
Proof. unfold removals. rewrite count_calls_app. simpl. lia. Qed.

Lemma remove_attempts_snoc (p : str) (l : list syscall) (c : syscall) :
  is_remove_call p c = true ->
  remove_attempts p (l ++ [c]) = S (remove_attempts p l).
Proof. intros Hc. unfold remove_attempts. rewrite count_calls_app. simpl. rewrite Hc. lia. Qed.

(** ** One conversion stage *)

Section StageFacts.

Variable execute : executor.

(** The process ran and exited with status 0. *)
Lemma stage_success command input_path w fs :
  execute command (files w) = (Exited 0, fs) ->
  is_Some (fs !! input_path) ->
  _call_image_conversion execute command input_path w =
    (Return tt, World (delete input_path fs) (calls w ++ [Removed input_path])).
Proof.
  intros Hex Hin.
  unfold _call_image_conversion, try_except_finally, check_call.
  rewrite Hex. by rewrite os_remove_present.
Qed.

(** The process exited with another status: the [except] clause removes
    the input and raises [IOError]; the [finally] clause then calls
    [os.remove] on the name again, and its [OSError] is what the caller
    gets. *)
Lemma stage_nonzero_exit command input_path w rc fs :
  execute command (files w) = (Exited rc, fs) ->
  rc <> 0 ->
  is_Some (fs !! input_path) ->
  _call_image_conversion execute command input_path w =
    (Raise (OSError ENOENT input_path),
     World (delete input_path fs)
           (calls w ++ [Removed input_path; RemoveFailed input_path])).
Proof.
  intros Hex Hrc Hin.
  unfold _call_image_conversion, try_except_finally, check_call.
  rewrite Hex. destruct rc as [|rc|rc]; [done| |];
    unfold bind; rewrite os_remove_present by done; unfold raise;
    (rewrite os_remove_absent by apply lookup_delete_eq); simpl;
    by rewrite <- app_assoc.
Qed.

(** No process ran. *)
Lemma stage_not_run command input_path w e fs :
  execute command (files w) = (NotRun e, fs) ->
  is_Some (fs !! input_path) ->
  _call_image_conversion execute command input_path w =
    (Raise (exn_of_launch_error e),
     World (delete input_path fs) (calls w ++ [Removed input_path])).
Proof.
  intros Hex Hin.
  unfold _call_image_conversion, try_except_finally, check_call.
  rewrite Hex.
  destruct e; simpl; by rewrite os_remove_present.
Qed.

(** The [finally] clause runs last on every path, so no file is left
    under the input name. *)
Lemma stage_input_gone command input_path w :
  files (_call_image_conversion execute command input_path w).2 !! input_path = None.
Proof.
  unfold _call_image_conversion, try_except_finally.
  destruct (check_call execute command w) as [r1 w1].
  match goal with
  | |- context [let '(r2, w2) := ?x in _] => destruct x as [r2 w2]
  end.
  pose proof (os_remove_gone input_path w2) as Hgone.
  destruct (os_remove input_path w2) as [[[]|e3] w3]; exact Hgone.
Qed.

(** An exception of the body never turns into a normal return. *)
Lemma stage_raise_propagates command input_path w e :
  (check_call execute command w).1 = Raise e ->
  is_raise (_call_image_conversion execute command input_path w).1 = true.
Proof.
  unfold _call_image_conversion, try_except_finally.
  destruct (check_call execute command w) as [r1 w1]. simpl. intros ->.
  destruct e;
    try (destruct (os_remove input_path w1) as [[[]|e3] w3]; reflexivity).
  unfold bind, raise.
  destruct (os_remove input_path w1) as [[[]|e2] w2];
    destruct (os_remove input_path w2) as [[[]|e3] w3]; reflexivity.
Qed.

End StageFacts.

(** C1.  A conversion stage unlinks its input file exactly once, whether
    the command succeeds, exits with an error or cannot be run (given that
    the command leaves its input in place), and no file is left under the
    input name.  When both commands of [_convert_image] succeed, the call
    returns, the uploaded file and the intermediate TIFF have each been
    unlinked once, and of the two names only the final one holds a file. *)
Theorem stage_input_removed_once :
  (forall (execute : executor) command input_path w r w',
      is_Some ((execute command (files w)).2 !! input_path) ->
      _call_image_conversion execute command input_path w = (r, w') ->
      files w' !! input_path = None /\
      removals input_path (calls w') = S (removals input_path (calls w)))
  /\
  (forall (execute : executor) conf self name w fs1 fs2,
      let full_path := path self name in
      let temp_file := temp_file_of full_path in
      execute (CONVERT_TO_TIFF full_path temp_file) (files w) = (Exited 0, fs1) ->
      is_Some (fs1 !! full_path) ->
      execute (CONVERT_TO_JP2 temp_file full_path) (delete full_path fs1)
        = (Exited 0, fs2) ->
      is_Some (fs2 !! temp_file) ->
      is_Some (fs2 !! full_path) ->
      exists w',
        _convert_image execute conf self name w = (Return tt, w') /\
        is_Some (files w' !! full_path) /\
        files w' !! temp_file = None /\
        calls w' = calls w ++ [Removed full_path; Removed temp_file]).
Proof.
  split.
  - intros execute command input_path w r w' Hin Hcall.
    destruct (execute command (files w)) as [o fs] eqn:Hex. simpl in Hin.
    destruct o as [rc|e].
    + destruct (decide (rc = 0)) as [->|Hrc].
      * rewrite (stage_success _ _ _ _ _ Hex Hin) in Hcall.
        injection Hcall as <- <-. simpl. split; [apply lookup_delete_eq|].
        apply removals_snoc_removed.
      * rewrite (stage_nonzero_exit _ _ _ _ _ _ Hex Hrc Hin) in Hcall.
        injection Hcall as <- <-. simpl. split; [apply lookup_delete_eq|].
        change [Removed input_path; RemoveFailed input_path]
          with ([Removed input_path] ++ [RemoveFailed input_path]).
        by rewrite app_assoc, removals_snoc_failed, removals_snoc_removed.
    + rewrite (stage_not_run _ _ _ _ _ _ Hex Hin) in Hcall.
      injection Hcall as <- <-. simpl. split; [apply lookup_delete_eq|].
      apply removals_snoc_removed.
  - intros execute conf self name w fs1 fs2 full_path temp_file Hex1 Hin1 Hex2 Hin2 Hout.
    pose proof (temp_file_of_fresh full_path) as Hfresh. fold temp_file in Hfresh.
    unfold _convert_image. fold full_path. fold temp_file. unfold bind at 1.
    rewrite (stage_success _ _ _ _ _ Hex1 Hin1). unfold bind at 1.
    rewrite (stage_success execute _ temp_file
               (World (delete full_path fs1) (calls w ++ [Removed full_path])) fs2)
      by done.
    assert (is_Some (delete temp_file fs2 !! full_path)) as [f Hf].
    { by rewrite lookup_delete_ne. }
    destruct (FILE_UPLOAD_PERMISSIONS conf) as [perms|].
    + unfold os_chmod. simpl. rewrite Hf.
      eexists. split; [reflexivity|]. simpl. repeat split.
      * rewrite lookup_insert_eq. by eexists.
      * rewrite lookup_insert_ne by done. apply lookup_delete_eq.
      * by rewrite <- app_assoc.
    + eexists. split; [reflexivity|]. simpl. repeat split.
      * by eexists.
      * apply lookup_delete_eq.
      * by rewrite <- app_assoc.
Qed.

Lemma stage_input_removed_once_witness :
  (files (_call_image_conversion sample.failing (py "convert") sample.final sample.disk).2
     !! sample.final = None /\
   removals sample.final
     (calls (_call_image_conversion sample.failing (py "convert") sample.final sample.disk).2)
   = S (removals sample.final (calls sample.disk)))
  /\
  (exists w',
      _convert_image sample.tools sample.conf sample.store sample.key sample.disk
        = (Return tt, w') /\
      is_Some (files w' !! sample.final) /\
      files w' !! sample.intermediate = None /\
      calls w' = calls sample.disk ++ [Removed sample.final; Removed sample.intermediate]).
Proof.
  split.
  - eapply (proj1 stage_input_removed_once sample.failing (py "convert") sample.final
              sample.disk).
    + vm_compute. by eexists.
    + apply surjective_pairing.
  - eapply (proj2 stage_input_removed_once sample.tools sample.conf sample.store
              sample.key sample.disk).
    + reflexivity.
    + vm_compute. by eexists.
    + reflexivity.
    + vm_compute. by eexists.
    + vm_compute. by eexists.
Defined.

(** C2.  When the command exits with a nonzero status, the input file is
    deleted, but the caller does not get the [IOError] that the [except]
    clause raises: the [finally] clause calls [os.remove] on the name that
    the [except] clause has just removed, and its [OSError] (ENOENT) is the
    exception that leaves the function.  Here for a [convert] that exits
    with status 1. *)
Theorem nonzero_exit_raises_OSError :
  let command := CONVERT_TO_TIFF sample.final sample.intermediate in
  let '(r, w') := _call_image_conversion sample.failing command sample.final sample.disk in
  r = Raise (OSError ENOENT sample.final) /\
  (forall message, r <> Raise (IOError message)) /\
  files w' !! sample.final = None /\
  calls w' = [Removed sample.final; RemoveFailed sample.final].
Proof.
  cbv zeta.
  rewrite (stage_nonzero_exit sample.failing _ sample.final sample.disk 1
             (files sample.disk)); [|reflexivity|done|vm_compute; by eexists].
  split; [done|]. split; [done|]. split; [apply lookup_delete_eq|done].
Qed.

(** On that path [os.remove] is called twice on the input, once with
    success. *)
Lemma nonzero_exit_two_remove_calls (execute : executor) command input_path w rc fs :
  execute command (files w) = (Exited rc, fs) -> rc <> 0 ->
  is_Some (fs !! input_path) ->
  let w' := (_call_image_conversion execute command input_path w).2 in
  remove_attempts input_path (calls w') = S (S (remove_attempts input_path (calls w))) /\
  removals input_path (calls w') = S (removals input_path (calls w)).
Proof.
  intros Hex Hrc Hin. cbv zeta.
  rewrite (stage_nonzero_exit _ _ _ _ _ _ Hex Hrc Hin). simpl.
  change [Removed input_path; RemoveFailed input_path]
    with ([Removed input_path] ++ [RemoveFailed input_path]).
  rewrite app_assoc. split.
  - rewrite !remove_attempts_snoc; [done|simpl..]; by apply bool_decide_eq_true_2.
  - by rewrite removals_snoc_failed, removals_snoc_removed.
Qed.

(** The same for every command, status and disk: no [IOError] ever leaves
    [_call_image_conversion]. *)
Lemma no_IOError_reaches_caller (execute : executor) command input_path w message :
  (_call_image_conversion execute command input_path w).1 <> Raise (IOError message).
Proof.
  unfold _call_image_conversion, try_except_finally, check_call.
  destruct (execute command (files w)) as [o fs].
  destruct o as [rc|e].
  - destruct rc as [|rc|rc]; simpl.
    + destruct (os_remove input_path _) as [[[]|e3] w3] eqn:H3; simpl; [done|].
      unfold os_remove in H3. destruct (_ !! _); by simplify_eq.
    + unfold bind, raise.
      destruct (os_remove input_path _) as [[[]|e2] w2] eqn:H2;
        pose proof (os_remove_gone input_path (World fs (calls w))) as Hgone;
        rewrite H2 in Hgone; simpl in Hgone;
        rewrite (os_remove_absent _ _ Hgone); done.
    + unfold bind, raise.
      destruct (os_remove input_path _) as [[[]|e2] w2] eqn:H2;
        pose proof (os_remove_gone input_path (World fs (calls w))) as Hgone;
        rewrite H2 in Hgone; simpl in Hgone;
        rewrite (os_remove_absent _ _ Hgone); done.
  - destruct e; simpl;
      (destruct (os_remove input_path _) as [[[]|e3] w3] eqn:H3; simpl; [done|]);
      unfold os_remove in H3; destruct (_ !! _); by simplify_eq.
Qed.

(** C10.  If the command invocation raises anything at all (a nonzero exit
    status, or an encoding, splitting or spawn failure), the call raises
    too, and by then no file is left under the input name; a failure to
    launch reaches the caller unchanged when the input file was there. *)
Theorem input_deleted_on_every_exception :
  forall (execute : executor) command input_path w e,
    (check_call execute command w).1 = Raise e ->
    exists e' w',
      _call_image_conversion execute command input_path w = (Raise e', w') /\
      files w' !! input_path = None /\
      (forall l fs, execute command (files w) = (NotRun l, fs) ->
                    is_Some (fs !! input_path) -> e' = e).
Proof.
  intros execute command input_path w e Hbody.
  pose proof (stage_raise_propagates execute command input_path w e Hbody) as Hraise.
  pose proof (stage_input_gone execute command input_path w) as Hgone.
  destruct (_call_image_conversion execute command input_path w) as [[[]|e'] w'] eqn:Hcall;
    [done|].
  exists e', w'. split; [done|]. split; [done|].
  intros l fs Hex Hin.
  rewrite (stage_not_run _ _ _ _ _ _ Hex Hin) in Hcall.
  unfold check_call in Hbody. rewrite Hex in Hbody. simpl in Hbody. congruence.
Qed.

Lemma input_deleted_on_every_exception_witness :
  exists e' w',
    _call_image_conversion sample.missing (py "convert a b") sample.final sample.disk
      = (Raise e', w') /\
    files w' !! sample.final = None /\
    (forall l fs, sample.missing (py "convert a b") (files sample.disk) = (NotRun l, fs) ->
                  is_Some (fs !! sample.final) -> e' = OSError ENOENT []).
Proof.
  apply (input_deleted_on_every_exception sample.missing (py "convert a b")
           sample.final sample.disk (OSError ENOENT [])).
  reflexivity.
Defined.

(** C5.  [full_base_url] raises exactly when no base URL is configured, and
    what it raises is a [ValueError]; otherwise it returns the base URL,
    [?FIF=] and the name.  [url] is [full_base_url] followed by
    [&RST=*&QLT=100&CVT=JPEG], errors included. *)
Theorem full_base_url_spec :
  forall (self : ImageStorage) (name : str),
    ((exists e, full_base_url self name = Raise e) <-> base_url self = None) /\
    (forall e, full_base_url self name = Raise e -> exists m, e = ValueError m) /\
    (forall b, base_url self = Some b ->
               full_base_url self name = Return (b ++ py "?FIF=" ++ name)) /\
    url self name
      = rbind (full_base_url self name)
              (fun u => Return (u ++ py "&RST=*&QLT=100&CVT=JPEG")).
Proof.
  intros [loc [b|]] name; unfold url, full_base_url; simpl; repeat split.
  - by intros [e He].
  - done.
  - done.
  - by intros b' [= ->].
  - intros _. by eexists.
  - intros e [= <-]. by eexists.
  - done.
Qed.

(** ** Upload paths *)



(** C9.  The uploaded file's own name plays no part: with the same storage,
    table, instance, UUID draw and disk, two filenames give the same result
    (the same key, the same effect on the disk), and a key that is returned
    is either the one generated from the UUID or the name stored for the
    record. *)
Theorem key_independent_of_filename :
  forall storage (objects : table) inst (filename1 filename2 : str) uuid4 w,
    get_image_path storage objects inst filename1 uuid4 w
    = get_image_path storage objects inst filename2 uuid4 w /\
    (forall key w',
        get_image_path storage objects inst filename1 uuid4 w = (Return key, w') ->
        key = generate_new_image_path uuid4 \/
        (exists pk, id inst = Some pk /\ objects !! pk = Some (Some key))).
Proof.
  intros storage objects [i] filename1 filename2 uuid4 w. split; [reflexivity|].
  intros key w' Hcall. unfold get_image_path in Hcall. cbn [id] in *.
  destruct (truthy_id i) as [pk|] eqn:Hid.
  - assert (i = Some pk) as -> by (destruct i as [[]|]; by simplify_eq/=).
    destruct (objects !! pk) as [[prior|]|] eqn:Hrow; [| |by simplify_eq].
    + destruct prior as [|c prior].
      * left. simpl in Hcall. unfold ret in Hcall. by simplify_eq.
      * right. exists pk. split; [done|].
        simpl in Hcall. unfold bind, FieldFile_delete, ret, os_remove in Hcall.
        repeat case_match; by simplify_eq.
    + left. simpl in Hcall. unfold ret in Hcall. by simplify_eq.
  - left. unfold ret in Hcall. by simplify_eq.
Qed.

(** ** The pattern matcher *)

Section ReFacts.

Import re.

Lemma leave_ok lo capture k taken t r :
  (lo <= length taken)%nat -> k t = Some r ->
  leave lo capture k taken t = Some (group capture taken r).
Proof.
  intros Hlo Hk. unfold leave.
  destruct (Nat.leb_spec lo (length taken)); [|lia].
  by rewrite Hk.
Qed.

(** A repetition [{n}]: exactly [n] characters of the class. *)
Lemma rep_exact cls n capture k (w rest taken : str) r :
  (length taken + length w = n)%nat ->
  Forall (fun c => cls c = true) w ->
  k rest = Some r ->
  rep cls n (Some n) true capture k taken (w ++ rest)
  = Some (group capture (taken ++ w) r).
Proof.
  revert taken. induction w as [|c w IH]; intros taken Hlen Hw Hk; simpl in *.
  - rewrite app_nil_r.
    assert ((length taken <? n)%nat = false) as Hfull.
    { apply Nat.ltb_ge. lia. }
    destruct rest as [|c rest]; simpl.
    + apply leave_ok; [lia|done].
    + rewrite Hfull, andb_false_r. apply leave_ok; [lia|done].
  - apply Forall_cons in Hw as [Hc Hw]. rewrite Hc. simpl.
    destruct (Nat.ltb_spec (length taken) n); [|lia].
    rewrite (IH (taken ++ [c])); [|rewrite length_app; simpl; lia|done|done].
    by rewrite <- app_assoc.
Qed.

(** A greedy repetition without an upper bound takes the whole run of
    characters of the class. *)
Lemma rep_greedy_run cls lo capture k (w rest taken : str) r :
  Forall (fun c => cls c = true) w ->
  run_ends cls rest ->
  (lo <= length (taken ++ w))%nat ->
  k rest = Some r ->
  rep cls lo None true capture k taken (w ++ rest)
  = Some (group capture (taken ++ w) r).
Proof.
  revert taken. induction w as [|c w IH]; intros taken Hw Hend Hlo Hk; simpl.
  - rewrite app_nil_r in *.
    destruct rest as [|c rest]; simpl.
    + by apply leave_ok.
    + simpl in Hend. rewrite Hend. simpl. by apply leave_ok.
  - apply Forall_cons in Hw as [Hc Hw]. rewrite Hc. simpl.
    rewrite (IH (taken ++ [c])); [|done|done|by rewrite <- app_assoc|done].
    by rewrite <- app_assoc.
Qed.

(** A lazy repetition from zero stops at the first place where the rest
    of the pattern matches. *)
Lemma rep_lazy_first cls k (pre rest taken : str) r :
  Forall (fun c => cls c = true) pre ->
  (forall i, (i < length pre)%nat -> k (drop i (pre ++ rest)) = None) ->
  k rest = Some r ->
  rep cls 0 None false false k taken (pre ++ rest) = Some r.
Proof.
  revert taken. induction pre as [|c pre IH]; intros taken Hpre Hearlier Hk; simpl.
  - destruct rest as [|c rest]; simpl.
    + unfold leave. simpl. by rewrite Hk.
    + unfold leave. simpl. rewrite Hk. by destruct (cls c).
  - apply Forall_cons in Hpre as [Hc Hpre]. rewrite Hc. simpl.
    unfold leave at 1. simpl.
    pose proof (Hearlier 0%nat) as H0. simpl in H0. rewrite H0 by lia. simpl.
    apply IH; [done| |done].
    intros i Hi. apply (Hearlier (S i)). simpl. lia.
Qed.

(** What a successful repetition has done. *)
Lemma rep_sound cls lo hi greedy capture k (t taken : str) r :
  rep cls lo hi greedy capture k taken t = Some r ->
  exists w rest r',
    t = w ++ rest /\ Forall (fun c => cls c = true) w /\
    (lo <= length (taken ++ w))%nat /\
    k rest = Some r' /\ r = group capture (taken ++ w) r'.
Proof.
  assert (forall taken t r, leave lo capture k taken t = Some r ->
            exists w rest r',
              t = w ++ rest /\ Forall (fun c => cls c = true) w /\
              (lo <= length (taken ++ w))%nat /\
              k rest = Some r' /\ r = group capture (taken ++ w) r') as Hleave.
  { clear. intros taken t r H. unfold leave in H.
    destruct (Nat.leb_spec lo (length taken)); [|done].
    exists [], t. rewrite app_nil_r.
    destruct (k t) as [r'|] eqn:Hk; simplify_eq/=. by exists r'. }
  assert (forall c taken t r,
            cls c = true ->
            (exists w rest r',
              t = w ++ rest /\ Forall (fun c => cls c = true) w /\
              (lo <= length ((taken ++ [c]) ++ w))%nat /\
              k rest = Some r' /\ r = group capture ((taken ++ [c]) ++ w) r') ->
            exists w rest r',
              c :: t = w ++ rest /\ Forall (fun c => cls c = true) w /\
              (lo <= length (taken ++ w))%nat /\
              k rest = Some r' /\ r = group capture (taken ++ w) r') as Hmore.
  { clear. intros c taken t r Hc (w & rest & r' & -> & Hw & Hlo & Hk & ->).
    exists (c :: w), rest, r'. rewrite <- app_assoc in *. simpl in *.
    repeat split; try done. by apply Forall_cons. }
  revert taken r. induction t as [|c t IH]; intros taken r H; simpl in H.
  - by apply Hleave.
  - destruct (cls c) eqn:Hc; simpl in H; [|by apply Hleave].
    destruct (below hi (length taken)); [|by apply Hleave].
    destruct greedy.
    + destruct (rep cls lo hi true capture k (taken ++ [c]) t) as [r1|] eqn:Hrec.
      * simplify_eq. apply Hmore; [done|]. by apply IH.
      * by apply Hleave.
    + destruct (leave lo capture k taken (c :: t)) as [r1|] eqn:Hl.
      * simplify_eq. by apply Hleave.
      * apply Hmore; [done|]. by apply IH.
Qed.

Lemma starts_with_app (l t : str) : starts_with l (l ++ t) = true.
Proof. induction l as [|a l IH]; simpl; [done|]. by rewrite Ascii.eqb_refl. Qed.

Lemma starts_with_sound (l t : str) :
  starts_with l t = true -> t = l ++ drop (length l) t.
Proof.
  revert t. induction l as [|a l IH]; intros [|b t] H; simpl in *; try done.
  apply andb_true_iff in H as [Hab H].
  apply Ascii.eqb_eq in Hab as ->. f_equal. by apply IH.
Qed.

Lemma exec_Lit l p (t : str) : exec (Lit l :: p) (l ++ t) = exec p t.
Proof. simpl. by rewrite starts_with_app, drop_app_length. Qed.

Lemma exec_Rep cls lo hi greedy capture p (t : str) :
  exec (Rep cls lo hi greedy capture :: p) t
  = rep cls lo hi greedy capture (exec p) [] t.
Proof. reflexivity. Qed.

End ReFacts.

(** ** Fresh keys *)

Section KeyFacts.

Lemma hex_char_is_hex (d : N) : is_hex (hex_char d) = true.
Proof.
  destruct d as [|p]; [reflexivity|].
  do 4 (try (destruct p as [p|p|]; try reflexivity)).
Qed.

Lemma hex_value_char (d : N) : (d < 16)%N -> hex_value (hex_char d) = d.
Proof.
  intros Hd. destruct d as [|p]; [reflexivity|].
  do 4 (try (destruct p as [p|p|]; try reflexivity)); lia.
Qed.

Lemma hex_digits_length k n : length (hex_digits k n) = k.
Proof.
  revert n. induction k as [|k IH]; intros n; simpl; [done|].
  rewrite length_app, IH. simpl. lia.
Qed.

Lemma hex_digits_is_hex k n : Forall (fun c => is_hex c = true) (hex_digits k n).
Proof.
  revert n. induction k as [|k IH]; intros n; simpl; [constructor|].
  apply Forall_app. split; [apply IH|].
  constructor; [apply hex_char_is_hex|constructor].
Qed.

Lemma hex_digits_inj k (n m : N) :
  (n < 16 ^ N.of_nat k)%N -> (m < 16 ^ N.of_nat k)%N ->
  hex_digits k n = hex_digits k m -> n = m.
Proof.
  revert n m. induction k as [|k IH]; intros n m Hn Hm Heq.
  - simpl in Hn, Hm. lia.
  - simpl in Heq. apply app_inj_tail in Heq as [Hhigh Hlow].
    rewrite Nat2N.inj_succ, N.pow_succ_r' in Hn, Hm.
    assert (n / 16 = m / 16)%N as Hq.
    { apply IH; [| |done]; apply N.Div0.div_lt_upper_bound; lia. }
    assert (n mod 16 = m mod 16)%N as Hr.
    { rewrite <- (hex_value_char (n mod 16)), <- (hex_value_char (m mod 16));
        [by rewrite Hlow| |]; by apply N.mod_lt. }
    rewrite (N.div_mod n 16), (N.div_mod m 16) by done. by rewrite Hq, Hr.
Qed.

Lemma hyphenate_length (hex : str) : length hex = 32%nat -> length (hyphenate hex) = 36%nat.
Proof.
  intros Hlen. unfold hyphenate.
  repeat rewrite ?length_app, ?length_take, ?length_drop. rewrite Hlen. reflexivity.
Qed.

Lemma hyphenate_chars (hex : str) :
  Forall (fun c => is_hex c = true) hex ->
  Forall (fun c => is_hex_or_dash c = true) (hyphenate hex).
Proof.
  intros Hhex.
  assert (Forall (fun c => is_hex_or_dash c = true) hex) as H.
  { eapply Forall_impl; [exact Hhex|]. intros c Hc. unfold is_hex_or_dash. by rewrite Hc. }
  unfold hyphenate.
  repeat (apply Forall_app; split);
    try (by repeat (apply Forall_take || apply Forall_drop));
    by repeat constructor.
Qed.

Lemma hyphenate_head (hex : str) :
  length hex = 32%nat -> exists c rest, hex = c :: rest /\ take 1 (hyphenate hex) = [c].
Proof. intros Hlen. destruct hex as [|c rest]; [done|]. by exists c, rest. Qed.

(** The digits can be read back from the hyphenated form. *)
Lemma hyphenate_inj (h1 h2 : str) :
  length h1 = 32%nat -> length h2 = 32%nat -> hyphenate h1 = hyphenate h2 -> h1 = h2.
Proof.
  intros H1 H2 Heq. unfold hyphenate in Heq.
  assert (forall (a b a' b' : str) (n : nat),
            take n a ++ b = take n a' ++ b' -> (n <= length a)%nat ->
            (n <= length a')%nat -> take n a = take n a' /\ b = b') as Hcut.
  { intros a b a' b' n Hab Ha Ha'. apply app_inj_1; [|done].
    rewrite !length_take. lia. }
  apply Hcut in Heq as [E1 Heq]; [|lia..]. injection Heq as Heq.
  apply Hcut in Heq as [E2 Heq]; [|rewrite length_drop; lia..]. injection Heq as Heq.
  apply Hcut in Heq as [E3 Heq]; [|rewrite length_drop; lia..]. injection Heq as Heq.
  apply Hcut in Heq as [E4 Heq]; [|rewrite length_drop; lia..]. injection Heq as E5.
  rewrite <- (take_drop 8 h1), <- (take_drop 8 h2), E1. f_equal.
  rewrite <- (take_drop 4 (drop 8 h1)), <- (take_drop 4 (drop 8 h2)), E2. f_equal.
  rewrite !drop_drop. simpl.
  rewrite <- (take_drop 4 (drop 12 h1)), <- (take_drop 4 (drop 12 h2)), E3. f_equal.
  rewrite !drop_drop. simpl.
  rewrite <- (take_drop 4 (drop 16 h1)), <- (take_drop 4 (drop 16 h2)), E4. f_equal.
  rewrite !drop_drop. simpl. exact E5.
Qed.

Lemma str_of_uuid_inj (u u' : N) :
  (u < 2 ^ 128)%N -> (u' < 2 ^ 128)%N -> str_of_uuid u = str_of_uuid u' -> u = u'.
Proof.
  intros Hu Hu' Heq. unfold str_of_uuid in Heq.
  apply hyphenate_inj in Heq; [|apply hex_digits_length..].
  apply (hex_digits_inj 32); [| |done].
  - by replace (16 ^ N.of_nat 32)%N with (2 ^ 128)%N by reflexivity.
  - by replace (16 ^ N.of_nat 32)%N with (2 ^ 128)%N by reflexivity.
Qed.

End KeyFacts.

(** C7.  A freshly allocated key is the first character of the UUID's
    string form, a slash, that string (36 characters) and [.jp2]; it matches
    [^[0-9a-f]/[0-9a-f-]{36}\.jp2$]; it is what [get_image_path] returns for
    an unsaved instance and for a record without an image; and different
    UUIDs give different keys. *)
Theorem fresh_key_shape :
  forall u : N, (u < 2 ^ 128)%N ->
    let key := generate_new_image_path u in
    key = take 1 (str_of_uuid u) ++ py "/" ++ str_of_uuid u ++ py ".jp2" /\
    length (str_of_uuid u) = 36%nat /\
    re.exec key_pattern key = Some [] /\
    (forall storage (objects : table) inst filename w,
        truthy_id (id inst) = None \/
        (exists pk, truthy_id (id inst) = Some pk /\
                    falsy_name <$> objects !! pk = Some true) ->
        get_image_path storage objects inst filename u w = (Return key, w)) /\
    (forall u' : N, (u' < 2 ^ 128)%N -> u' <> u -> generate_new_image_path u' <> key).
Proof.
  intros u Hu key. subst key. unfold generate_new_image_path.
  pose proof (hex_digits_length 32 u) as Hlen.
  pose proof (hyphenate_length _ Hlen) as Hlen36.
  split; [done|]. split; [done|]. split; [|split].
  - destruct (hyphenate_head _ Hlen) as (c & rest & Hhex & Hhead).
    unfold str_of_uuid. rewrite Hhead.
    assert (is_hex c = true) as Hc.
    { pose proof (hex_digits_is_hex 32 u) as Hall. rewrite Hhex in Hall.
      by apply Forall_cons in Hall as [? _]. }
    unfold key_pattern. rewrite exec_Rep.
    rewrite (rep_exact is_hex 1 false _ [c] _ [] []); [done|done|by repeat constructor|].
    rewrite exec_Lit, exec_Rep.
    rewrite (rep_exact is_hex_or_dash 36 false _ _ _ [] []); [done|done| |done].
    apply hyphenate_chars, hex_digits_is_hex.
  - intros storage objects inst filename w [Hnone|(pk & Hpk & Hrow)];
      unfold get_image_path.
    + by rewrite Hnone.
    + rewrite Hpk. destruct (objects !! pk) as [row|]; [|done].
      injection Hrow as Hrow. by rewrite Hrow.
  - intros u' Hu' Hne Heq.
    destruct (hyphenate_head _ Hlen) as (c & rest & Hhex & Hhead).
    destruct (hyphenate_head _ (hex_digits_length 32 u')) as (c' & rest' & Hhex' & Hhead').
    unfold str_of_uuid in Heq. rewrite Hhead, Hhead' in Heq.
    apply (app_inj_1 [c'] [c]) in Heq as [_ Heq]; [|reflexivity].
    apply (app_inj_1 (py "/") (py "/")) in Heq as [_ Heq]; [|reflexivity].
    apply app_inj_1 in Heq as [Heq _];
      [|by rewrite !hyphenate_length by apply hex_digits_length].
    apply Hne. by apply str_of_uuid_inj.
Qed.

Lemma fresh_key_shape_witness :
  let u := 0x1234567890abcdef1234567890abcdef%N in
  let key := generate_new_image_path u in
  key = take 1 (str_of_uuid u) ++ py "/" ++ str_of_uuid u ++ py ".jp2" /\
  length (str_of_uuid u) = 36%nat /\
  re.exec key_pattern key = Some [] /\
  (forall storage (objects : table) inst filename w,
      truthy_id (id inst) = None \/
      (exists pk, truthy_id (id inst) = Some pk /\
                  falsy_name <$> objects !! pk = Some true) ->
      get_image_path storage objects inst filename u w = (Return key, w)) /\
  (forall u' : N, (u' < 2 ^ 128)%N -> u' <> u -> generate_new_image_path u' <> key).
Proof.
  apply (fresh_key_shape 0x1234567890abcdef1234567890abcdef%N). reflexivity.
Defined.

(** ** The field file *)



(** A request that fails leaves the cache empty, so the next call sends
    the request again. *)
Lemma failed_fetch_not_cached (requests_get : str -> result str) self sent e b :
  _dimensions_cache self = None ->
  base_url (storage self) = Some b ->
  requests_get (b ++ py "?FIF=" ++ name self ++ py "&OBJ=Max-size") = Raise e ->
  _get_image_dimensions requests_get self sent
  = (Raise e, self, sent ++ [b ++ py "?FIF=" ++ name self ++ py "&OBJ=Max-size"]).
Proof.
  intros Hc Hb Hget. unfold _get_image_dimensions, full_base_url.
  rewrite Hc, Hb. rewrite <- !app_assoc. by rewrite Hget.
Qed.

(** What [int] can raise. *)
Lemma int_raises (x : value) (e : exn) :
  int x = Raise e ->
  (exists m, e = TypeError m) \/ (exists m, e = ValueError m) \/
  (exists m, e = OverflowError m).
Proof.
  destruct x as [|n|f|t]; simpl.
  - intros [= <-]. left. by eexists.
  - done.
  - destruct f; simpl; try done; intros [= <-]; right; [right|left]; by eexists.
  - unfold int_of_str. intros H. right. left.
    repeat case_match; simplify_eq; by eexists.
Qed.

(** [int] raises [OverflowError] for the two infinite floats only. *)
Lemma int_overflow (x : value) (m : str) :
  int x = Raise (OverflowError m) <->
  (exists sign, x = VFloat (S754_infinity sign)) /\
  m = py "cannot convert float infinity to integer".
Proof.
  split.
  - destruct x as [|n|f|t]; simpl; try done.
    + destruct f; simpl; try done. intros [= <-]. split; [by eexists|done].
    + unfold int_of_str.
      destruct (skip is_space t) as [|c r]; simpl.
      * done.
      * repeat case_match; simplify_eq; done.
  - intros [[sign ->] ->]. reflexivity.
Qed.

(** For every value but the infinite floats, [thumbnail_url] returns the
    base URL, the height segment, the width segment and [&CVT=JPEG], a
    segment being present exactly when [int] accepts the value. *)
Lemma thumbnail_url_finite (self : ImageFieldFile) (height width : value) (b : str) :
  base_url (storage self) = Some b ->
  (forall sign, height <> VFloat (S754_infinity sign)) ->
  (forall sign, width <> VFloat (S754_infinity sign)) ->
  thumbnail_url self height width
  = Return (b ++ py "?FIF=" ++ name self
              ++ segment (py "&HEI=") height ++ segment (py "&WID=") width
              ++ py "&CVT=JPEG").
Proof.
  intros Hb Hh Hw.
  assert (forall prefix x, (forall sign, x <> VFloat (S754_infinity sign)) ->
            size_segment prefix x = Return (segment prefix x)) as Hseg.
  { intros prefix x Hx. unfold size_segment, segment.
    destruct (int x) as [n|e] eqn:Hint; [done|].
    destruct (int_raises _ _ Hint) as [[m ->]|[[m ->]|[m ->]]]; [done|done|].
    apply int_overflow in Hint as [[sign ->] _]. by destruct (Hx sign). }
  unfold thumbnail_url. rewrite (Hseg _ _ Hh), (Hseg _ _ Hw). simpl.
  unfold field_full_base_url, full_base_url. rewrite Hb. simpl. by rewrite <- !app_assoc.
Qed.

(** An infinite float makes [thumbnail_url] raise, as height and as
    width. *)
Lemma thumbnail_url_infinite (self : ImageFieldFile) (sign : bool) (other : value) :
  let overflow := OverflowError (py "cannot convert float infinity to integer") in
  thumbnail_url self (VFloat (S754_infinity sign)) other = Raise overflow /\
  ((forall s, other <> VFloat (S754_infinity s)) ->
   thumbnail_url self other (VFloat (S754_infinity sign)) = Raise overflow).
Proof.
  split; [reflexivity|]. intros Hother. unfold thumbnail_url, size_segment.
  destruct (int other) as [n|e] eqn:Hint; [reflexivity|].
  destruct (int_raises _ _ Hint) as [[m ->]|[[m ->]|[m ->]]]; [reflexivity..|].
  apply int_overflow in Hint as [[s ->] _]. by destruct (Hother s).
Qed.

(** C3.  An infinite float is not omitted: [int] raises [OverflowError],
    which the two [except] clauses (TypeError, ValueError) do not catch, so
    [thumbnail_url] raises instead of returning a URL.  Here with the
    infinity as height, and as width next to a height of 100. *)
Theorem thumbnail_url_infinite_height :
  thumbnail_url sample.handle sample.infinity VNone
  = Raise (OverflowError (py "cannot convert float infinity to integer")) /\
  thumbnail_url sample.handle (VInt 100) sample.infinity
  = Raise (OverflowError (py "cannot convert float infinity to integer")) /\
  thumbnail_url sample.handle (VInt 100) (VStr (py "abc"))
  = Return (py "http://example.org/iip?FIF=a/abc.jp2&HEI=100&CVT=JPEG").
Proof.
  split; [|split].
  - exact (proj1 (thumbnail_url_infinite sample.handle false VNone)).
  - by apply (proj2 (thumbnail_url_infinite sample.handle false (VInt 100))).
  - reflexivity.
Qed.

(** ** The dimension probe *)

Section ProbeFacts.

Import re.

Lemma space_not_digit (c : ascii) : is_space c = true -> is_digit c = false.
Proof. destruct c as [[] [] [] [] [] [] [] []]; done. Qed.

Lemma digit_not_space (c : ascii) : is_digit c = true -> is_space c = false.
Proof. destruct c as [[] [] [] [] [] [] [] []]; done. Qed.

Lemma skip_head f (t : str) c r : skip f t = c :: r -> f c = false.
Proof.
  induction t as [|x t IH]; simpl; [done|].
  destruct (f x) eqn:Hx; [done|]. by intros [= <- _].
Qed.

(** The stripped text does not end with a line feed. *)
Lemma strip_no_final_lf (text t0 : str) : strip text <> t0 ++ [lf].
Proof.
  unfold strip. intros H.
  apply (f_equal (@rev ascii)) in H. rewrite rev_involutive, rev_app_distr in H. simpl in H.
  by apply skip_head in H.
Qed.

Lemma span_digits (w : str) :
  Forall (fun c => is_digit c = true) w -> span is_digit w = (w, []).
Proof.
  induction w as [|c w IH]; intros Hw; simpl; [done|].
  apply Forall_cons in Hw as [Hc Hw]. by rewrite Hc, (IH Hw).
Qed.

(** [int] of a string of digits is its decimal value. *)
Lemma int_of_digits (w : str) :
  w <> [] -> Forall (fun c => is_digit c = true) w ->
  int (VStr w) = Return (decimal_value w).
Proof.
  intros Hne Hw. destruct w as [|c w]; [done|]. clear Hne.
  pose proof (span_digits _ Hw) as Hspan.
  apply Forall_cons in Hw as [Hc Hw].
  simpl. unfold int_of_str.
  assert (skip is_space (c :: w) = c :: w) as ->.
  { simpl. by rewrite (digit_not_space _ Hc). }
  assert (match c :: w with
          | "-"%char :: r => (true, r)
          | "+"%char :: r => (false, r)
          | _ => (false, c :: w)
          end = (false, c :: w)) as ->.
  { destruct c as [[] [] [] [] [] [] [] []]; done. }
  assert (skip is_space (c :: w) = c :: w) as ->.
  { simpl. by rewrite (digit_not_space _ Hc). }
  by rewrite Hspan.
Qed.

Lemma at_end_one_line (t : str) : one_line t -> t <> [] -> at_end t = false.
Proof.
  intros Ht Hne. destruct t as [|c [|c' t]]; [done| |done].
  apply Forall_cons in Ht as [Hc _]. unfold dot in Hc. simpl.
  by destruct (Ascii.eqb c "010"%char).
Qed.

(** The rest of the line after the height. *)
Lemma rest_of_line (post : str) :
  one_line post -> exec [Rep dot 0 None false false; Eos] post = Some [].
Proof.
  intros Hpost. rewrite exec_Rep.
  rewrite <- (app_nil_r post) at 1.
  apply rep_lazy_first; [done| |done].
  intros i Hi. rewrite app_nil_r. simpl.
  rewrite at_end_one_line; [done|by apply Forall_drop|].
  intros Hd. apply (f_equal length) in Hd. rewrite length_drop in Hd. simpl in Hd. lia.
Qed.

(** From the literal on, a well-formed line matches and the two groups
    are the numbers. *)
Lemma tail_complete (w ws h post : str) :
  w <> [] -> Forall (fun c => is_digit c = true) w ->
  ws <> [] -> Forall (fun c => is_space c = true) ws ->
  h <> [] -> Forall (fun c => is_digit c = true) h ->
  one_line post -> run_ends is_digit post ->
  exec tail_pattern (py "Max-size:" ++ w ++ ws ++ h ++ post) = Some [w; h].
Proof.
  intros Hw0 Hw Hs0 Hs Hh0 Hh Hpost Hend.
  unfold tail_pattern, max_size_pattern. cbn [tl].
  rewrite exec_Lit, exec_Rep.
  rewrite (rep_greedy_run digit 1 true _ w (ws ++ h ++ post) [] [h]); [done|done| | |].
  - destruct ws as [|c ws]; [done|]. simpl.
    apply Forall_cons in Hs as [Hc _]. by apply space_not_digit.
  - destruct w; [done|]. simpl. lia.
  - rewrite exec_Rep.
    rewrite (rep_greedy_run space 1 false _ ws (h ++ post) [] [h]); [done|done| | |].
    + destruct h as [|c h]; [done|]. simpl.
      apply Forall_cons in Hh as [Hc _]. by apply digit_not_space.
    + destruct ws; [done|]. simpl. lia.
    + rewrite exec_Rep.
      rewrite (rep_greedy_run digit 1 true _ h post [] []); [done|done|done| |].
      * destruct h; [done|]. simpl. lia.
      * by apply rest_of_line.
Qed.

(** Conversely, what a match from the literal on tells about the text. *)
Lemma tail_sound (t : str) (gs : list str) :
  exec tail_pattern t = Some gs ->
  exists w ws h line rest,
    gs = [w; h] /\
    t = py "Max-size:" ++ w ++ ws ++ h ++ line ++ rest /\
    w <> [] /\ Forall (fun c => is_digit c = true) w /\
    ws <> [] /\ Forall (fun c => is_space c = true) ws /\
    h <> [] /\ Forall (fun c => is_digit c = true) h /\
    one_line line /\ (rest = [] \/ rest = [lf]).
Proof.
  unfold tail_pattern, max_size_pattern. cbn [tl]. intros H.
  cbn [exec] in H.
  destruct (starts_with (py "Max-size:") t) eqn:Hlit; [|done].
  apply starts_with_sound in Hlit.
  apply rep_sound in H as (w & t1 & r1 & Ht1 & Hw & Hw1 & H & ->).
  apply rep_sound in H as (ws & t2 & r2 & Ht2 & Hs & Hs1 & H & ->).
  apply rep_sound in H as (h & t3 & r3 & Ht3 & Hh & Hh1 & H & ->).
  apply rep_sound in H as (line & rest & r4 & Ht4 & Hline & _ & H & ->).
  cbn [exec] in H. destruct (at_end rest) eqn:Hrest; [|done].
  injection H as <-.
  exists w, ws, h, line, rest. simpl in *.
  repeat split; try done.
  - rewrite Hlit at 1. rewrite Ht1, Ht2, Ht3, Ht4. reflexivity.
  - intros ->. simpl in Hw1. lia.
  - intros ->. simpl in Hs1. lia.
  - intros ->. simpl in Hh1. lia.
  - destruct rest as [|c [|c' rest]]; [by left| |done]. right.
    simpl in Hrest. apply Ascii.eqb_eq in Hrest. by subst.
Qed.

(** A match of the whole pattern against a stripped text shows the
    format of the specification, on one line. *)
Lemma match_sound (text : str) (gs : list str) :
  exec max_size_pattern (strip text) = Some gs ->
  exists pre w ws h post,
    gs = [w; h] /\ max_size_shape (strip text) pre w ws h post /\
    one_line pre /\ one_line post.
Proof.
  intros H. unfold max_size_pattern in H. rewrite exec_Rep in H.
  apply rep_sound in H as (pre & t1 & r1 & Ht1 & Hpre & _ & H & ->).
  apply tail_sound in H
    as (w & ws & h & line & rest & -> & -> & Hw0 & Hw & Hs0 & Hs & Hh0 & Hh & Hline & Hrest).
  destruct Hrest as [-> | ->].
  - exists pre, w, ws, h, line. rewrite app_nil_r in Ht1. by repeat split.
  - exfalso. apply (strip_no_final_lf text (pre ++ py "Max-size:" ++ w ++ ws ++ h ++ line)).
    rewrite Ht1. by rewrite <- !app_assoc.
Qed.

End ProbeFacts.

Section ProbeSpec.

Import re.

Lemma exec_max_size (t : str) :
  exec max_size_pattern t = rep dot 0 None false false (exec tail_pattern) [] t.
Proof. reflexivity. Qed.

(** The first well-formed, one-line occurrence is the one that matches. *)
Lemma match_complete (text pre w ws h post : str) :
  max_size_shape (strip text) pre w ws h post ->
  one_line pre -> one_line post -> run_ends is_digit post ->
  (forall pre' w' ws' h' post',
      max_size_shape (strip text) pre' w' ws' h' post' ->
      one_line pre' -> one_line post' -> (length pre <= length pre')%nat) ->
  exec max_size_pattern (strip text) = Some [w; h].
Proof.
  intros (Ht & Hw0 & Hw & Hs0 & Hs & Hh0 & Hh) Hpre Hpost Hend Hfirst.
  rewrite exec_max_size, Ht.
  apply rep_lazy_first; [done| |by apply tail_complete].
  intros i Hi. rewrite <- Ht.
  destruct (exec tail_pattern (drop i (strip text))) as [gs|] eqn:Hearly; [|done].
  exfalso.
  apply tail_sound in Hearly
    as (w' & ws' & h' & line & rest & _ & Hd & Hw0' & Hw' & Hs0' & Hs' & Hh0' & Hh'
        & Hline & Hrest).
  assert (strip text = take i pre ++ py "Max-size:" ++ w' ++ ws' ++ h' ++ line ++ rest)
    as Ht'.
  { rewrite <- (take_drop i (strip text)) at 1. rewrite Hd. f_equal.
    rewrite Ht. apply take_app_le. lia. }
  destruct Hrest as [-> | ->].
  - rewrite app_nil_r in Ht'.
    assert (length pre <= length (take i pre))%nat as Hle.
    { apply (Hfirst (take i pre) w' ws' h' line); [by repeat split| |done].
      by apply Forall_take. }
    rewrite length_take in Hle. lia.
  - apply (strip_no_final_lf text
             (take i pre ++ py "Max-size:" ++ w' ++ ws' ++ h' ++ line)).
    rewrite Ht'. by rewrite <- !app_assoc.
Qed.

End ProbeSpec.

(** C4 as stated fails: a response of two lines has the format "anything,
    [Max-size:], width, blanks, height, anything", and the probe returns
    (0, 0), because [.] does not match a line feed. *)
Lemma two_line_response_unparsed :
  ~ (forall (requests_get : str -> result str) self b body pre w ws h post,
        _dimensions_cache self = None ->
        base_url (storage self) = Some b ->
        requests_get (b ++ py "?FIF=" ++ name self ++ py "&OBJ=Max-size") = Return body ->
        max_size_shape body pre w ws h post ->
        (_get_image_dimensions requests_get self []).1.1
        = Return (decimal_value w, decimal_value h)).
Proof.
  intros H.
  specialize (H sample.two_lines sample.handle (py "http://example.org/iip")
                (py "IIP" ++ [lf] ++ py "Max-size:1024 768")
                (py "IIP" ++ [lf]) (py "1024") (py " ") (py "768") []
                eq_refl eq_refl eq_refl).
  assert (max_size_shape (py "IIP" ++ [lf] ++ py "Max-size:1024 768")
            (py "IIP" ++ [lf]) (py "1024") (py " ") (py "768") []) as Hshape.
  { repeat split; try done; by repeat constructor. }
  specialize (H Hshape). vm_compute in H. discriminate.
Qed.

(** C4, amended.  A first call whose request is answered never raises.  It
    returns (0, 0) when the stripped response is empty and when the response
    has no one-line occurrence of the format.  When the stripped response is
    [pre], [Max-size:], digits [w], blanks, digits [h] and [post], with no
    line feed in [pre] and [post], [h] the whole run of digits, and no such
    occurrence starting earlier, it returns the pair of [w] and [h]. *)
Theorem max_size_response_parsed :
  forall (requests_get : str -> result str) (self : ImageFieldFile) (b text : str),
    _dimensions_cache self = None ->
    base_url (storage self) = Some b ->
    requests_get (b ++ py "?FIF=" ++ name self ++ py "&OBJ=Max-size") = Return text ->
    let dims := (_get_image_dimensions requests_get self []).1.1 in
    (exists p, dims = Return p) /\
    (strip text = [] -> dims = Return (0, 0)) /\
    ((forall pre w ws h post,
         max_size_shape (strip text) pre w ws h post ->
         one_line pre -> one_line post -> False) ->
     dims = Return (0, 0)) /\
    (forall pre w ws h post,
        max_size_shape (strip text) pre w ws h post ->
        one_line pre -> one_line post -> re.run_ends is_digit post ->
        (forall pre' w' ws' h' post',
            max_size_shape (strip text) pre' w' ws' h' post' ->
            one_line pre' -> one_line post' -> (length pre <= length pre')%nat) ->
        dims = Return (decimal_value w, decimal_value h)).
Proof.
  intros requests_get self b text Hcache Hb Hget dims.
  assert (dims = parse_dimensions text) as ->.
  { subst dims. unfold _get_image_dimensions, full_base_url.
    rewrite Hcache, Hb. rewrite <- !app_assoc. rewrite Hget.
    by destruct (parse_dimensions text). }
  clear. unfold parse_dimensions. repeat split.
  - destruct (re.exec max_size_pattern (strip text)) as [gs|] eqn:Hm; [|by eexists].
    apply match_sound in Hm
      as (pre & w & ws & h & post & -> & (_ & Hw0 & Hw & _ & _ & Hh0 & Hh) & _).
    rewrite (int_of_digits w), (int_of_digits h) by done. by eexists.
  - by intros ->.
  - intros Hnone.
    destruct (re.exec max_size_pattern (strip text)) as [gs|] eqn:Hm; [|done].
    apply match_sound in Hm as (pre & w & ws & h & post & _ & Hshape & Hpre & Hpost).
    by destruct (Hnone pre w ws h post).
  - intros pre w ws h post Hshape Hpre Hpost Hend Hfirst.
    rewrite (match_complete text pre w ws h post) by done.
    destruct Hshape as (_ & Hw0 & Hw & _ & _ & Hh0 & Hh).
    by rewrite (int_of_digits w), (int_of_digits h) by done.
Qed.

Lemma max_size_response_parsed_witness :
  (_get_image_dimensions sample.verbose sample.handle []).1.1 = Return (1024, 768).
Proof.
  destruct (max_size_response_parsed sample.verbose sample.handle
              (py "http://example.org/iip") (py "foo Max-size:1024 768 bar")
              eq_refl eq_refl eq_refl) as (_ & _ & _ & H).
  apply (H (py "foo ") (py "1024") (py " ") (py "768") (py " bar")).
  - repeat split; try done; by repeat constructor.
  - by repeat constructor.
  - by repeat constructor.
  - reflexivity.
  - intros pre' w' ws' h' post' (Ht & _) _ _.
    change (strip (py "foo Max-size:1024 768 bar"))
      with (py "foo Max-size:1024 768 bar") in Ht.
    destruct pre' as [|c1 [|c2 [|c3 [|c4 pre']]]]; try discriminate Ht.
    simpl. lia.
Defined.

Lemma full_base_url_spec_witness :
  full_base_url sample.store sample.key
    = Return (py "http://example.org/iip?FIF=a/abc.jp2") /\
  (exists m, full_base_url sample.unconfigured sample.key = Raise (ValueError m)) /\
  url sample.store sample.key
    = Return (py "http://example.org/iip?FIF=a/abc.jp2&RST=*&QLT=100&CVT=JPEG").
Proof.
  split; [|split].
  - apply (proj1 (proj2 (proj2 (full_base_url_spec sample.store sample.key)))
             (py "http://example.org/iip")).
    reflexivity.
  - destruct (full_base_url_spec sample.unconfigured sample.key) as (Hiff & Herr & _).
    destruct (proj2 Hiff eq_refl) as [e He].
    destruct (Herr e He) as [m ->]. by exists m.
  - rewrite (proj2 (proj2 (proj2 (full_base_url_spec sample.store sample.key)))).
    reflexivity.
Defined.

(** * Further properties *)

(** ** What a stage does to the disk *)

Section StageEffect.

Variable execute : executor.

(** Whatever the command does and however the call ends, the disk after
    a stage is the disk the command left, without the input file; the call
    returns exactly when the command exited with status 0 and had left its
    input in place. *)
Theorem stage_disk_effect command input_path w :
  let fs := (execute command (files w)).2 in
  let '(r, w') := _call_image_conversion execute command input_path w in
  files w' = delete input_path fs /\
  (r = Return tt <->
   (execute command (files w)).1 = Exited 0 /\ is_Some (fs !! input_path)).
Proof.
  cbv zeta.
  destruct (execute command (files w)) as [o fs] eqn:Hex. simpl.
  destruct (fs !! input_path) as [f|] eqn:Hin.
  - assert (is_Some (fs !! input_path)) as Hsome by (by eexists).
    destruct o as [rc|e].
    + destruct (decide (rc = 0)) as [->|Hrc].
      * rewrite (stage_success _ _ _ _ _ Hex Hsome). simpl. split; [done|].
        split; [by intros _|done].
      * rewrite (stage_nonzero_exit _ _ _ _ _ _ Hex Hrc Hsome). simpl. split; [done|].
        split; [done|]. intros [[= ?] _]. done.
    + rewrite (stage_not_run _ _ _ _ _ _ Hex Hsome). simpl. split; [done|].
      split; [done|]. by intros [? _].
  - unfold _call_image_conversion, try_except_finally, check_call. rewrite Hex.
    rewrite (delete_id fs input_path Hin).
    assert (forall l, os_remove input_path (World fs l)
              = (Raise (OSError ENOENT input_path),
                 World fs (l ++ [RemoveFailed input_path]))) as Hrm.
    { intros l. by rewrite os_remove_absent. }
    destruct o as [[|rc|rc]|e]; simpl.
    + rewrite Hrm. simpl. split; [done|]. split; [done|]. by intros [_ [? ?]].
    + unfold bind. rewrite Hrm. unfold raise. rewrite Hrm. simpl.
      split; [done|]. split; [done|]. by intros [? _].
    + unfold bind. rewrite Hrm. unfold raise. rewrite Hrm. simpl.
      split; [done|]. split; [done|]. by intros [? _].
    + destruct e; simpl; rewrite Hrm; simpl; (split; [done|]);
        (split; [done|]); by intros [? _].
Qed.

End StageEffect.

(** ** The conversion as a whole *)

Section PipelineFacts.

Variable execute : executor.
Variable conf : settings.

(** A stage whose command fails, the input file being in place. *)
Lemma stage_failed command input_path w o fs :
  execute command (files w) = (o, fs) ->
  o <> Exited 0 ->
  is_Some (fs !! input_path) ->
  _call_image_conversion execute command input_path w =
    (Raise (stage_failure o input_path),
     World (delete input_path fs) (calls w ++ stage_failure_calls o input_path)).
Proof.
  intros Hex Ho Hin. destruct o as [rc|e]; simpl.
  - apply (stage_nonzero_exit execute command input_path w rc fs); [done| |done].
    by intros ->.
  - by apply stage_not_run.
Qed.

(** When [convert] fails, [_convert_image] raises what the first stage
    raises, the upload is gone, and nothing else has happened to the disk
    that [convert] left: [kdu_compress] is not run and no permissions are
    set. *)
Theorem first_stage_failure self name w o fs1 :
  let full_path := path self name in
  let temp_file := temp_file_of full_path in
  execute (CONVERT_TO_TIFF full_path temp_file) (files w) = (o, fs1) ->
  o <> Exited 0 ->
  is_Some (fs1 !! full_path) ->
  _convert_image execute conf self name w =
    (Raise (stage_failure o full_path),
     World (delete full_path fs1) (calls w ++ stage_failure_calls o full_path)) /\
  delete full_path fs1 !! full_path = None.
Proof.
  intros full_path temp_file Hex Ho Hin. split; [|apply lookup_delete_eq].
  unfold _convert_image. fold full_path. fold temp_file. unfold bind at 1.
  by rewrite (stage_failed _ _ _ _ _ Hex Ho Hin).
Qed.

(** When [convert] succeeds and [kdu_compress] fails, [_convert_image]
    raises what the second stage raises; the upload and the intermediate
    TIFF are both gone, and the final name holds whatever [kdu_compress]
    left there, with the permissions it gave. *)
Theorem second_stage_failure self name w fs1 o fs2 :
  let full_path := path self name in
  let temp_file := temp_file_of full_path in
  execute (CONVERT_TO_TIFF full_path temp_file) (files w) = (Exited 0, fs1) ->
  is_Some (fs1 !! full_path) ->
  execute (CONVERT_TO_JP2 temp_file full_path) (delete full_path fs1) = (o, fs2) ->
  o <> Exited 0 ->
  is_Some (fs2 !! temp_file) ->
  exists w',
    _convert_image execute conf self name w = (Raise (stage_failure o temp_file), w') /\
    files w' = delete temp_file fs2 /\
    files w' !! temp_file = None /\
    files w' !! full_path = fs2 !! full_path /\
    calls w' = calls w ++ Removed full_path :: stage_failure_calls o temp_file.
Proof.
  intros full_path temp_file Hex1 Hin1 Hex2 Ho Hin2.
  pose proof (temp_file_of_fresh full_path) as Hfresh. fold temp_file in Hfresh.
  unfold _convert_image. fold full_path. fold temp_file. unfold bind at 1.
  rewrite (stage_success _ _ _ _ _ Hex1 Hin1). unfold bind at 1.
  rewrite (stage_failed _ temp_file
             (World (delete full_path fs1) (calls w ++ [Removed full_path])) o fs2)
    by done.
  eexists. split; [reflexivity|]. simpl. split; [done|].
  split; [apply lookup_delete_eq|]. split; [by rewrite lookup_delete_ne|].
  by rewrite <- app_assoc.
Qed.

(** The world after a conversion in which both commands succeed. *)
Lemma convert_image_returns self name w fs1 fs2 f :
  let full_path := path self name in
  let temp_file := temp_file_of full_path in
  execute (CONVERT_TO_TIFF full_path temp_file) (files w) = (Exited 0, fs1) ->
  is_Some (fs1 !! full_path) ->
  execute (CONVERT_TO_JP2 temp_file full_path) (delete full_path fs1) = (Exited 0, fs2) ->
  is_Some (fs2 !! temp_file) ->
  fs2 !! full_path = Some f ->
  exists w',
    _convert_image execute conf self name w = (Return tt, w') /\
    files w' !! full_path = Some (with_permissions conf f) /\
    (forall q, q <> full_path -> files w' !! q = delete temp_file fs2 !! q) /\
    calls w' = calls w ++ [Removed full_path; Removed temp_file].
Proof.
  intros full_path temp_file Hex1 Hin1 Hex2 Hin2 Hout.
  pose proof (temp_file_of_fresh full_path) as Hfresh. fold temp_file in Hfresh.
  unfold _convert_image. fold full_path. fold temp_file. unfold bind at 1.
  rewrite (stage_success _ _ _ _ _ Hex1 Hin1). unfold bind at 1.
  rewrite (stage_success execute _ temp_file
             (World (delete full_path fs1) (calls w ++ [Removed full_path])) fs2)
    by done.
  assert (delete temp_file fs2 !! full_path = Some f) as Hf.
  { by rewrite lookup_delete_ne. }
  unfold with_permissions.
  destruct (FILE_UPLOAD_PERMISSIONS conf) as [perms|].
  - unfold os_chmod. simpl. rewrite Hf.
    eexists. split; [reflexivity|]. simpl. split; [apply lookup_insert_eq|].
    split; [|by rewrite <- app_assoc].
    intros q Hq. by rewrite lookup_insert_ne.
  - eexists. split; [reflexivity|]. simpl. split; [done|].
    split; [done|by rewrite <- app_assoc].
Qed.

(** After a successful conversion the final name holds the bytes that
    [kdu_compress] wrote, with the configured upload permissions when there
    are any and with the permissions [kdu_compress] gave otherwise; no other
    file that [kdu_compress] left is changed, except the TIFF, which is
    gone. *)
Theorem converted_file_permissions self name w fs1 fs2 f :
  let full_path := path self name in
  let temp_file := temp_file_of full_path in
  execute (CONVERT_TO_TIFF full_path temp_file) (files w) = (Exited 0, fs1) ->
  is_Some (fs1 !! full_path) ->
  execute (CONVERT_TO_JP2 temp_file full_path) (delete full_path fs1) = (Exited 0, fs2) ->
  is_Some (fs2 !! temp_file) ->
  fs2 !! full_path = Some f ->
  let w' := (_convert_image execute conf self name w).2 in
  (exists converted,
      files w' !! full_path = Some converted /\
      contents converted = contents f /\
      mode converted = match FILE_UPLOAD_PERMISSIONS conf with
                       | Some perms => Some perms
                       | None => mode f
                       end) /\
  (forall q, q <> full_path -> q <> temp_file -> files w' !! q = fs2 !! q).
Proof.
  intros full_path temp_file Hex1 Hin1 Hex2 Hin2 Hout w'.
  destruct (convert_image_returns self name w fs1 fs2 f Hex1 Hin1 Hex2 Hin2 Hout)
    as (w1 & Hrun & Hfinal & Hother & _).
  subst w'. fold full_path in Hrun. rewrite Hrun. simpl. split.
  - exists (with_permissions conf f). split; [done|].
    unfold with_permissions. by destruct (FILE_UPLOAD_PERMISSIONS conf).
  - intros q Hq Hq'. rewrite (Hother q Hq). by rewrite lookup_delete_ne.
Qed.

End PipelineFacts.

Lemma first_stage_failure_witness :
  _convert_image sample.failing sample.conf sample.store sample.key sample.disk =
    (Raise (OSError ENOENT sample.final),
     World (delete sample.final (files sample.disk))
           [Removed sample.final; RemoveFailed sample.final]) /\
  delete sample.final (files sample.disk) !! sample.final = None.
Proof.
  apply (first_stage_failure sample.failing sample.conf sample.store sample.key
           sample.disk (Exited 1) (files sample.disk)).
  - reflexivity.
  - discriminate.
  - vm_compute. by eexists.
Defined.

Lemma second_stage_failure_witness :
  exists w',
    _convert_image demo.half_working sample.conf sample.store sample.key sample.disk
      = (Raise (OSError ENOENT sample.intermediate), w') /\
    files w' !! sample.intermediate = None /\
    files w' !! sample.final = None /\
    calls w' = [Removed sample.final; Removed sample.intermediate;
                RemoveFailed sample.intermediate].
Proof.
  destruct (second_stage_failure demo.half_working sample.conf sample.store sample.key
              sample.disk
              (<[sample.intermediate := File (py "TIFF bytes") None]> (files sample.disk))
              (Exited 1)
              (delete sample.final
                 (<[sample.intermediate := File (py "TIFF bytes") None]>
                    (files sample.disk))))
    as (w' & Hrun & Hfiles & Htemp & Hfinal & Hcalls).
  - reflexivity.
  - vm_compute. by eexists.
  - reflexivity.
  - discriminate.
  - vm_compute. by eexists.
  - exists w'. split; [exact Hrun|]. split; [exact Htemp|]. split; [|exact Hcalls].
    etrans; [exact Hfinal|]. apply lookup_delete_eq.
Defined.

Lemma converted_file_permissions_witness :
  let w' := (_convert_image sample.tools sample.conf sample.store sample.key
               sample.disk).2 in
  (exists converted,
      files w' !! sample.final = Some converted /\
      contents converted = py "JP2 bytes" /\
      mode converted = Some 420) /\
  (forall q, q <> sample.final -> q <> sample.intermediate ->
             files w' !! q
             = (<[sample.final := File (py "JP2 bytes") None]>
                  (delete sample.final
                     (<[sample.intermediate := File (py "TIFF bytes") None]>
                        (files sample.disk)))) !! q).
Proof.
  apply (converted_file_permissions sample.tools sample.conf sample.store sample.key
           sample.disk
           (<[sample.intermediate := File (py "TIFF bytes") None]> (files sample.disk))
           (<[sample.final := File (py "JP2 bytes") None]>
              (delete sample.final
                 (<[sample.intermediate := File (py "TIFF bytes") None]>
                    (files sample.disk))))
           (File (py "JP2 bytes") None)).
  - reflexivity.
  - vm_compute. by eexists.
  - reflexivity.
  - vm_compute. by eexists.
  - apply lookup_insert_eq.
Defined.

(** ** Saving *)

Section SaveFacts.

Variable execute : executor.
Variable conf : settings.
Variable super_save : base_save.

(** When the base class has stored the upload and both commands succeed,
    [_save] returns the name that the base class returned, and under that
    name the storage holds the converted bytes with the upload permissions;
    the intermediate TIFF is gone. *)
Theorem save_returns_converted self name content w stored w0 fs1 fs2 f :
  let full_path := path self stored in
  let temp_file := temp_file_of full_path in
  super_save self name content w = (Return stored, w0) ->
  execute (CONVERT_TO_TIFF full_path temp_file) (files w0) = (Exited 0, fs1) ->
  is_Some (fs1 !! full_path) ->
  execute (CONVERT_TO_JP2 temp_file full_path) (delete full_path fs1) = (Exited 0, fs2) ->
  is_Some (fs2 !! temp_file) ->
  fs2 !! full_path = Some f ->
  exists w',
    _save execute conf super_save self name content w = (Return stored, w') /\
    files w' !! full_path = Some (with_permissions conf f) /\
    files w' !! temp_file = None /\
    calls w' = calls w0 ++ [Removed full_path; Removed temp_file].
Proof.
  intros full_path temp_file Hsuper Hex1 Hin1 Hex2 Hin2 Hout.
  destruct (convert_image_returns execute conf self stored w0 fs1 fs2 f
              Hex1 Hin1 Hex2 Hin2 Hout) as (w' & Hrun & Hfinal & Hother & Hcalls).
  exists w'. unfold _save, bind. rewrite Hsuper, Hrun. unfold ret.
  split; [done|]. split; [done|]. split; [|done].
  rewrite Hother by apply temp_file_of_fresh. apply lookup_delete_eq.
Qed.

(** An upload whose conversion fails at the first stage is lost: [_save]
    raises, and no file is left under the name that the base class had
    stored it under.  When the base class itself raises, [_save] raises the
    same and runs no command. *)
Theorem save_failed_conversion self name content w :
  (forall stored w0 o fs1,
      super_save self name content w = (Return stored, w0) ->
      execute (CONVERT_TO_TIFF (path self stored) (temp_file_of (path self stored)))
              (files w0) = (o, fs1) ->
      o <> Exited 0 ->
      is_Some (fs1 !! path self stored) ->
      exists w',
        _save execute conf super_save self name content w
          = (Raise (stage_failure o (path self stored)), w') /\
        files w' = delete (path self stored) fs1 /\
        files w' !! path self stored = None) /\
  (forall e w0,
      super_save self name content w = (Raise e, w0) ->
      _save execute conf super_save self name content w = (Raise e, w0)).
Proof.
  split.
  - intros stored w0 o fs1 Hsuper Hex Ho Hin.
    unfold _save, bind at 1. rewrite Hsuper.
    unfold _convert_image, bind.
    rewrite (stage_failed execute _ _ _ _ _ Hex Ho Hin).
    eexists. split; [reflexivity|]. simpl. split; [done|apply lookup_delete_eq].
  - intros e w0 Hsuper. unfold _save, bind. by rewrite Hsuper.
Qed.

End SaveFacts.

Lemma save_returns_converted_witness :
  exists w',
    _save sample.tools sample.conf demo.write_upload sample.store sample.key
          (py "PNG bytes") demo.empty_disk = (Return sample.key, w') /\
    files w' !! sample.final = Some (File (py "JP2 bytes") (Some 420)) /\
    files w' !! sample.intermediate = None /\
    calls w' = [Removed sample.final; Removed sample.intermediate].
Proof.
  apply (save_returns_converted sample.tools sample.conf demo.write_upload sample.store
           sample.key (py "PNG bytes") demo.empty_disk sample.key
           (World {[ sample.final := File (py "PNG bytes") None ]} [])
           (<[sample.intermediate := File (py "TIFF bytes") None]>
              {[ sample.final := File (py "PNG bytes") None ]})
           (<[sample.final := File (py "JP2 bytes") None]>
              (delete sample.final
                 (<[sample.intermediate := File (py "TIFF bytes") None]>
                    {[ sample.final := File (py "PNG bytes") None ]})))
           (File (py "JP2 bytes") None)).
  - reflexivity.
  - reflexivity.
  - vm_compute. by eexists.
  - reflexivity.
  - vm_compute. by eexists.
  - apply lookup_insert_eq.
Defined.

Lemma save_failed_conversion_witness :
  (exists w',
      _save sample.failing sample.conf demo.write_upload sample.store sample.key
            (py "PNG bytes") demo.empty_disk
        = (Raise (OSError ENOENT sample.final), w') /\
      files w' !! sample.final = None) /\
  _save sample.tools sample.conf demo.read_only sample.store sample.key
        (py "PNG bytes") demo.empty_disk
    = (Raise (OSError 13 sample.key), demo.empty_disk).
Proof.
  split.
  - destruct (proj1 (save_failed_conversion sample.failing sample.conf demo.write_upload
                       sample.store sample.key (py "PNG bytes") demo.empty_disk)
                sample.key
                (World (<[sample.final := File (py "PNG bytes") None]> ∅) [])
                (Exited 1)
                (<[sample.final := File (py "PNG bytes") None]> ∅))
      as (w' & Hrun & _ & Hgone).
    + reflexivity.
    + reflexivity.
    + discriminate.
    + rewrite lookup_insert_eq. by eexists.
    + exists w'. split; [exact Hrun|exact Hgone].
  - apply (proj2 (save_failed_conversion sample.tools sample.conf demo.read_only
                    sample.store sample.key (py "PNG bytes") demo.empty_disk)).
    reflexivity.
Defined.

(** ** Upload paths, again *)


(** Asking again changes nothing: a second call on the disk that the
    first one left gives the same result and leaves that disk as it is. *)
Theorem get_image_path_again :
  forall storage (objects : table) inst filename filename' uuid4 w r w',
    get_image_path storage objects inst filename uuid4 w = (r, w') ->
    get_image_path storage objects inst filename' uuid4 w' = (r, w').
Proof.
  intros storage objects [i] filename filename' uuid4 w r w'.
  unfold get_image_path. cbn [id].
  destruct (truthy_id i) as [pk|]; [|by intros [= <- <-]].
  destruct (objects !! pk) as [[prior|]|]; [| |by intros [= <- <-]].
  - destruct (falsy_name (Some prior)); [by intros [= <- <-]|].
    simpl. unfold bind, FieldFile_delete, ret.
    destruct (files w !! path storage prior) as [f|] eqn:Hf.
    + rewrite os_remove_present by (by eexists). intros [= <- <-]. simpl.
      by rewrite lookup_delete_eq.
    + intros [= <- <-]. by rewrite Hf.
  - simpl. by intros [= <- <-].
Qed.

Lemma get_image_path_again_witness :
  get_image_path sample.store sample.objects (Instance (Some 7)) (py "other.png") 5
    (World (delete sample.final (files sample.disk)) [Removed sample.final])
  = (Return sample.key,
     World (delete sample.final (files sample.disk)) [Removed sample.final]).
Proof.
  apply (get_image_path_again sample.store sample.objects (Instance (Some 7))
           (py "holiday.png") (py "other.png") 5%N sample.disk).
  reflexivity.
Defined.

(** ** Where the intermediate file goes *)

Section TempFileFacts.

Import posixpath.

Lemma rstrip_snoc_eq c (a : str) : rstrip c (a ++ [c]) = rstrip c a.
Proof.
  induction a as [|y a IH]; simpl.
  - by rewrite Ascii.eqb_refl.
  - by rewrite IH.
Qed.

Lemma rstrip_snoc_ne c (a : str) x : x <> c -> rstrip c (a ++ [x]) = a ++ [x].
Proof.
  intros Hx. induction a as [|y a IH]; simpl.
  - by destruct (Ascii.eqb_spec x c).
  - rewrite IH. by destruct a.
Qed.

Lemma all_sep_Forall (a : str) : all_sep a = true <-> Forall (fun x => x = sep) a.
Proof.
  unfold all_sep. rewrite forallb_forall, Forall_forall.
  split; intros H x Hx.
  - apply Ascii.eqb_eq, H. by apply list_elem_of_In.
  - apply Ascii.eqb_eq, H. by apply list_elem_of_In.
Qed.

(** What [rstrip] leaves: nothing of a run of [c], and otherwise the text
    up to its last character other than [c]. *)
Lemma rstrip_cases c (a : str) :
  (rstrip c a = [] /\ Forall (fun x => x = c) a) \/
  (exists a' x, rstrip c a = a' ++ [x] /\ x <> c).
Proof.
  induction a as [|y a IH] using rev_ind; [by left|].
  destruct (decide (y = c)) as [->|Hy].
  - rewrite rstrip_snoc_eq. destruct IH as [[Hr Hall]|Hr]; [left|by right].
    split; [done|]. apply Forall_app. split; [done|by constructor].
  - right. exists a, y. by rewrite rstrip_snoc_ne.
Qed.

(** The directory that [split] returns is empty, a run of separators, or
    a text that does not end with a separator. *)
Lemma split_dir_cases (p : str) :
  (split p).1 = [] \/
  (exists h, (split p).1 = h ++ [sep] /\ Forall (fun x => x = sep) h) \/
  (exists a' x, (split p).1 = a' ++ [x] /\ x <> sep).
Proof.
  unfold split. cbn [fst].
  destruct (take (Z.to_nat (rfind sep p + 1)) p) as [|y head0] eqn:Hhead; [by left|].
  rewrite bool_decide_eq_false_2 by done. cbn [negb andb].
  destruct (all_sep (y :: head0)) eqn:Hall; cbn [negb].
  - right. left. apply all_sep_Forall in Hall.
    destruct (exists_last (l := y :: head0)) as (h & z & Hlast); [done|].
    rewrite Hlast in *. apply Forall_app in Hall as [Hh Hz].
    apply Forall_cons in Hz as [-> _]. by exists h.
  - right. right.
    destruct (rstrip_cases sep (y :: head0)) as [[_ Hall']|(a' & x & Hr & Hx)].
    + apply all_sep_Forall in Hall'. congruence.
    + by exists a', x.
Qed.

(** The directory of a path, joined with a name, splits into that
    directory and that name again. *)
Lemma split_join_dir (p b : str) :
  b <> [] -> sep ∉ b -> split (join (split p).1 b) = ((split p).1, b).
Proof.
  intros Hne Hb.
  assert (startswith_sep b = false) as Hstart.
  { destruct b as [|x b]; [done|]. simpl.
    apply not_elem_of_cons in Hb as [Hx _].
    destruct (Ascii.eqb_spec x sep); congruence. }
  apply injective_projections; [|by apply join_tail]. cbn [fst].
  destruct (split_dir_cases p) as [Hdir|[(h & Hdir & Hall)|(a' & x & Hdir & Hx)]];
    rewrite Hdir; unfold join; rewrite Hstart.
  - simpl. unfold split. cbn [fst].
    pose proof (rfind_app_absent sep [] b Hb) as H0. simpl in H0. rewrite H0.
    reflexivity.
  - assert (endswith_sep (h ++ [sep]) = true) as ->.
    { unfold endswith_sep. apply bool_decide_eq_true. apply last_snoc. }
    rewrite orb_true_r. unfold split. cbn [fst].
    rewrite (rfind_app_absent _ _ _ Hb), rfind_snoc.
    replace (Z.to_nat (Z.of_nat (length h) + 1)) with (length (h ++ [sep]))
      by (rewrite length_app; simpl; lia).
    rewrite take_app_length.
    rewrite bool_decide_eq_false_2 by (by destruct h).
    assert (all_sep (h ++ [sep]) = true) as ->; [|done].
    apply all_sep_Forall, Forall_app. split; [done|by constructor].
  - assert (bool_decide (a' ++ [x] = []) = false) as ->
      by (apply bool_decide_eq_false; by destruct a').
    assert (endswith_sep (a' ++ [x]) = false) as ->.
    { unfold endswith_sep. apply bool_decide_eq_false. rewrite last_snoc. congruence. }
    simpl. unfold split. cbn [fst].
    rewrite (cons_middle sep (a' ++ [x]) b), app_assoc.
    rewrite (rfind_app_absent _ _ _ Hb), rfind_snoc.
    replace (Z.to_nat (Z.of_nat (length (a' ++ [x])) + 1))
      with (length ((a' ++ [x]) ++ [sep])) by (rewrite !length_app; simpl; lia).
    rewrite take_app_length.
    rewrite bool_decide_eq_false_2 by (by destruct a').
    assert (all_sep ((a' ++ [x]) ++ [sep]) = false) as ->.
    { apply not_true_is_false. rewrite all_sep_Forall. intros Hall'.
      apply Forall_app in Hall' as [Hall' _]. apply Forall_app in Hall' as [_ Hall'].
      by apply Forall_cons in Hall' as [? _]. }
    simpl. by rewrite rstrip_snoc_eq, rstrip_snoc_ne.
Qed.

(** [splitext] of a text that ends in a dot and an extension, when the
    last component has more than dots before that dot. *)
Lemma splitext_app (X e : str) :
  extsep ∉ e -> sep ∉ e ->
  existsb (fun x => negb (Ascii.eqb x extsep)) (split X).2 = true ->
  splitext (X ++ extsep :: e) = (X, extsep :: e).
Proof.
  intros Hdot Hsep Hname. unfold splitext.
  rewrite (cons_middle extsep X e), app_assoc.
  rewrite (rfind_app_absent extsep _ _ Hdot), rfind_snoc.
  rewrite <- app_assoc. simpl.
  assert (sep ∉ extsep :: e) as Hsep'.
  { apply not_elem_of_cons. split; [done|done]. }
  rewrite (rfind_app_absent sep _ _ Hsep').
  pose proof (rfind_bounds sep X) as Hb.
  destruct (Z.ltb_spec (rfind sep X) (Z.of_nat (length X))); [|lia].
  rewrite Nat2Z.id, take_app_length, drop_app_length.
  rewrite split_tail in Hname. by rewrite Hname.
Qed.

Lemma root_not_dots (r t : str) :
  t <> [] -> extsep ∉ t ->
  existsb (fun x => negb (Ascii.eqb x extsep)) (r ++ t) = true.
Proof.
  intros Hne Ht. rewrite existsb_app. apply orb_true_iff. right.
  destruct t as [|x t]; [done|]. simpl.
  apply not_elem_of_cons in Ht as [Hx _].
  destruct (Ascii.eqb_spec x extsep); [congruence|done].
Qed.

Lemma join_app (a b c : str) :
  b <> [] -> startswith_sep b = false -> join a (b ++ c) = join a b ++ c.
Proof.
  intros Hne Hb. unfold join.
  assert (startswith_sep (b ++ c) = false) as -> by (by destruct b).
  rewrite Hb. destruct (_ || _); by rewrite <- ?app_assoc.
Qed.

Lemma file_root_no_sep (p : str) : sep ∉ (splitext (split p).2).1.
Proof.
  pose proof (split_tail_no_sep p) as Hno.
  destruct (splitext_spec (split p).2) as [Hcat _].
  rewrite Hcat in Hno. intros Hin. apply Hno, elem_of_app. by left.
Qed.

(** The intermediate TIFF lies in the directory of the final file, and its
    name is the final file's name with [_1.tif] in place of the extension. *)
Theorem temp_file_location (full_path : str) :
  split (temp_file_of full_path)
  = ((split full_path).1, (splitext (split full_path).2).1 ++ py "_1.tif").
Proof.
  unfold temp_file_of.
  destruct (split full_path) as [dir_name file_name] eqn:Hsplit.
  destruct (splitext file_name) as [file_root file_ext] eqn:Hext.
  pose proof (file_root_no_sep full_path) as Hroot. rewrite Hsplit in Hroot.
  simpl in Hroot. rewrite Hext in Hroot. simpl in Hroot.
  pose proof (split_join_dir full_path (file_root ++ py "_1.tif")) as H.
  rewrite Hsplit in H. cbn [fst snd] in *. rewrite Hext. cbn [fst snd].
  apply H; [by destruct file_root|].
  intros Hin. apply elem_of_app in Hin as [Hin|Hin]; [done|].
  vm_compute in Hin.
  by repeat (apply elem_of_cons in Hin as [Hin|Hin]; [done|]); apply elem_of_nil in Hin.
Qed.

(** Whatever the extension of the upload's name, the intermediate file has
    the extension [.tif], which [kdu_compress] needs. *)
Theorem temp_file_extension (full_path : str) :
  exists root, splitext (temp_file_of full_path) = (root, py ".tif") /\
               temp_file_of full_path = root ++ py ".tif".
Proof.
  unfold temp_file_of.
  destruct (split full_path) as [dir_name file_name] eqn:Hsplit.
  destruct (splitext file_name) as [file_root file_ext] eqn:Hext.
  pose proof (file_root_no_sep full_path) as Hroot. rewrite Hsplit in Hroot.
  simpl in Hroot. rewrite Hext in Hroot. simpl in Hroot.
  assert (sep ∉ file_root ++ py "_1") as Hno.
  { intros Hin. apply elem_of_app in Hin as [Hin|Hin]; [done|].
    vm_compute in Hin.
    by repeat (apply elem_of_cons in Hin as [Hin|Hin]; [done|]); apply elem_of_nil in Hin. }
  assert (startswith_sep (file_root ++ py "_1") = false) as Hstart.
  { destruct file_root as [|x r]; [done|]. simpl.
    apply not_elem_of_cons in Hroot as [Hx _].
    destruct (Ascii.eqb_spec x sep); congruence. }
  exists (join dir_name (file_root ++ py "_1")).
  change (file_root ++ py "_1.tif") with (file_root ++ py "_1" ++ py ".tif").
  rewrite app_assoc, join_app; [|by destruct file_root|done].
  split; [|done].
  apply (splitext_app _ (py "tif")).
  - vm_compute. intros Hin.
    by repeat (apply elem_of_cons in Hin as [Hin|Hin]; [done|]); apply elem_of_nil in Hin.
  - vm_compute. intros Hin.
    by repeat (apply elem_of_cons in Hin as [Hin|Hin]; [done|]); apply elem_of_nil in Hin.
  - rewrite join_tail; [|by destruct file_root|done].
    apply root_not_dots; [done|].
    vm_compute. intros Hin.
    by repeat (apply elem_of_cons in Hin as [Hin|Hin]; [done|]); apply elem_of_nil in Hin.
Qed.

End TempFileFacts.

(** ** Generated keys as paths *)

Section KeyPathFacts.

Import posixpath.

Lemma hex_or_dash_plain (c : ascii) :
  is_hex_or_dash c = true -> c <> sep /\ c <> extsep.
Proof. intros H. split; intros ->; done. Qed.

Lemma plain_text (t : str) :
  Forall (fun c => is_hex_or_dash c = true) t -> (sep ∉ t) /\ (extsep ∉ t).
Proof.
  induction 1 as [|c t Hc _ [IH1 IH2]]; [split; apply not_elem_of_nil|].
  destruct (hex_or_dash_plain c Hc).
  split; apply not_elem_of_cons; by split.
Qed.

(** The string form of a UUID: a hexadecimal digit and 35 more characters,
    none of them a slash or a dot. *)
Lemma str_of_uuid_plain (u : N) :
  exists c rest,
    str_of_uuid u = c :: rest /\ c <> sep /\ c <> extsep /\
    (sep ∉ str_of_uuid u) /\ (extsep ∉ str_of_uuid u).
Proof.
  pose proof (hyphenate_chars _ (hex_digits_is_hex 32 u)) as Hall.
  pose proof (hyphenate_length _ (hex_digits_length 32 u)) as Hlen.
  fold (str_of_uuid u) in Hall, Hlen.
  destruct (plain_text _ Hall) as [Hsep Hdot].
  destruct (str_of_uuid u) as [|c rest] eqn:HU; [done|].
  exists c, rest. apply Forall_cons in Hall as [Hc _].
  destruct (hex_or_dash_plain c Hc). by repeat split.
Qed.

Lemma split_after_sep (a' b : str) x :
  sep ∉ b -> x <> sep -> split ((a' ++ [x]) ++ sep :: b) = (a' ++ [x], b).
Proof.
  intros Hb Hx. apply injective_projections; [|by apply split_tail_after_sep].
  unfold split. cbn [fst].
  rewrite (cons_middle sep (a' ++ [x]) b), app_assoc.
  rewrite (rfind_app_absent _ _ _ Hb), rfind_snoc.
  replace (Z.to_nat (Z.of_nat (length (a' ++ [x])) + 1))
    with (length ((a' ++ [x]) ++ [sep])) by (rewrite !length_app; simpl; lia).
  rewrite take_app_length.
  rewrite bool_decide_eq_false_2 by (by destruct a').
  assert (all_sep ((a' ++ [x]) ++ [sep]) = false) as ->.
  { apply not_true_is_false. rewrite all_sep_Forall. intros Hall'.
    apply Forall_app in Hall' as [Hall' _]. apply Forall_app in Hall' as [_ Hall'].
    by apply Forall_cons in Hall' as [? _]. }
  simpl. by rewrite rstrip_snoc_eq, rstrip_snoc_ne.
Qed.

Lemma not_in_literal (c : ascii) (t : str) :
  forallb (fun x => negb (Ascii.eqb x c)) t = true -> c ∉ t.
Proof.
  induction t as [|x t IH]; simpl; [intros _; apply not_elem_of_nil|].
  intros H. apply andb_true_iff in H as [Hx Ht].
  apply not_elem_of_cons. split; [|by apply IH].
  intros ->. by rewrite Ascii.eqb_refl in Hx.
Qed.

(** A generated key is a path of two components, the one-character
    directory and the file name, and the name has the extension [.jp2]. *)
Theorem generated_key_parts (u : N) :
  let filename := str_of_uuid u in
  split (generate_new_image_path u) = (take 1 filename, filename ++ py ".jp2") /\
  splitext (generate_new_image_path u)
  = (take 1 filename ++ py "/" ++ filename, py ".jp2").
Proof.
  cbv zeta. unfold generate_new_image_path.
  destruct (str_of_uuid_plain u) as (c & rest & HU & Hc & Hc' & Hsep & Hdot).
  rewrite HU in *. cbn [take]. rewrite !take_0.
  change (c :: []) with [c].
  assert (sep ∉ py "jp2") as Hs by (by apply not_in_literal).
  assert (extsep ∉ py "jp2") as Hd by (by apply not_in_literal).
  split.
  - apply (split_after_sep [] ((c :: rest) ++ py ".jp2") c); [|done].
    intros Hin. apply elem_of_app in Hin as [Hin|Hin]; [done|].
    revert Hin. by apply not_in_literal.
  - replace ([c] ++ py "/" ++ (c :: rest) ++ py ".jp2")
      with (([c] ++ py "/" ++ c :: rest) ++ extsep :: py "jp2")
      by (by rewrite <- !app_assoc).
    apply splitext_app; [done|done|].
    change ([c] ++ py "/" ++ c :: rest) with ([c] ++ sep :: (c :: rest)).
    rewrite split_tail_after_sep by done. simpl.
    by destruct (Ascii.eqb_spec c extsep).
Qed.

(** For a generated key, the intermediate TIFF of the conversion is the
    file [<shard>/<uuid>_1.tif] of the same storage. *)
Theorem generated_key_temp_file (self : ImageStorage) (u : N) :
  let filename := str_of_uuid u in
  temp_file_of (path self (generate_new_image_path u))
  = path self (take 1 filename ++ py "/" ++ filename ++ py "_1.tif").
Proof.
  cbv zeta. unfold generate_new_image_path, path.
  destruct (str_of_uuid_plain u) as (c & rest & HU & Hc & Hc' & Hsep & Hdot).
  rewrite HU in *. cbn [take]. rewrite !take_0.
  change (c :: []) with [c].
  assert (sep ∉ py "jp2") as Hs by (by apply not_in_literal).
  assert (extsep ∉ py "jp2") as Hd by (by apply not_in_literal).
  assert (forall Q : str,
            temp_file_of ((Q ++ [c]) ++ sep :: ((c :: rest) ++ py ".jp2"))
            = (Q ++ [c]) ++ sep :: ((c :: rest) ++ py "_1.tif")) as Htemp.
  { intros Q. unfold temp_file_of.
    rewrite split_after_sep; [|by apply not_elem_of_app; split;
                                  [|apply not_in_literal]|done].
    change ((c :: rest) ++ py ".jp2") with ((c :: rest) ++ extsep :: py "jp2").
    rewrite splitext_app; [|done|done|].
    2: { rewrite split_tail_whole by done. simpl.
         by destruct (Ascii.eqb_spec c extsep). }
    unfold join. simpl.
    assert (Ascii.eqb c sep = false) as -> by (by destruct (Ascii.eqb_spec c sep)).
    assert (bool_decide (Q ++ [c] = []) = false) as ->
      by (apply bool_decide_eq_false; by destruct Q).
    assert (endswith_sep (Q ++ [c]) = false) as ->; [|done].
    unfold endswith_sep. apply bool_decide_eq_false. rewrite last_snoc. congruence. }
  unfold join. simpl.
  assert (Ascii.eqb c sep = false) as -> by (by destruct (Ascii.eqb_spec c sep)).
  destruct (bool_decide (location self = []) || endswith_sep (location self)).
  - specialize (Htemp (location self)). rewrite <- !app_assoc in Htemp. exact Htemp.
  - specialize (Htemp (location self ++ [sep])). rewrite <- !app_assoc in Htemp.
    exact Htemp.
Qed.

End KeyPathFacts.

(** ** Numbers in URLs *)

Section NumberFacts.

Lemma digits_of_uint (d : Decimal.uint) :
  Forall (fun c => is_digit c = true) (py (NilEmpty.string_of_uint d)).
Proof. induction d; simpl; by constructor. Qed.

Lemma value_of_uint_acc (d : Decimal.uint) (acc : positive) :
  fold_left (fun a c => 10 * a + digit_value c) (py (NilEmpty.string_of_uint d))
            (Z.pos acc)
  = Z.pos (Pos.of_uint_acc d acc).
Proof.
  revert acc. induction d; intros acc; simpl; [done|..];
    rewrite <- IHd; f_equal;
    match goal with
    | |- context [digit_value ?c] =>
        let v := eval vm_compute in (digit_value c) in
        change (digit_value c) with v
    end; lia.
Qed.

Lemma value_of_uint (d : Decimal.uint) :
  decimal_value (py (NilEmpty.string_of_uint d)) = Z.of_uint d.
Proof.
  unfold decimal_value, Z.of_uint.
  induction d; simpl; [done|exact IHd|..];
    match goal with
    | |- fold_left _ _ ?a = _ =>
        let p := eval vm_compute in (Z.to_pos a) in
        change a with (Z.pos p)
    end; by rewrite value_of_uint_acc.
Qed.

Lemma nonnil_string (d : Decimal.uint) :
  d <> Decimal.Nil ->
  py (NilZero.string_of_uint d) = py (NilEmpty.string_of_uint d) /\
  py (NilEmpty.string_of_uint d) <> [].
Proof. intros Hd. by destruct d. Qed.

(** [int(str(n))] is [n]. *)
Lemma int_of_str_of_int (n : Z) : int (VStr (str_of_int n)) = Return n.
Proof.
  unfold str_of_int. destruct n as [|p|p].
  - reflexivity.
  - simpl Z.to_int. simpl NilZero.string_of_int.
    destruct (nonnil_string _ (Unsigned.to_uint_nonnil p)) as [-> Hne].
    rewrite int_of_digits by (done || apply digits_of_uint).
    rewrite value_of_uint. unfold Z.of_uint. by rewrite Unsigned.of_to.
  - simpl Z.to_int. simpl NilZero.string_of_int.
    change (py (String "-" (NilZero.string_of_uint (Pos.to_uint p))))
      with ("-"%char :: py (NilZero.string_of_uint (Pos.to_uint p))).
    destruct (nonnil_string _ (Unsigned.to_uint_nonnil p)) as [-> Hne].
    pose proof (digits_of_uint (Pos.to_uint p)) as Hdig.
    pose proof (value_of_uint (Pos.to_uint p)) as Hval.
    destruct (py (NilEmpty.string_of_uint (Pos.to_uint p))) as [|c ds] eqn:Hs; [done|].
    pose proof (span_digits _ Hdig) as Hspan.
    apply Forall_cons in Hdig as [Hc Hds].
    simpl. unfold int_of_str. cbn [skip is_space].
    change (is_space "-") with false. cbv iota.
    rewrite (digit_not_space _ Hc), Hspan. cbn [skip]. rewrite Hval.
    unfold Z.of_uint. by rewrite Unsigned.of_to.
Qed.

(** The characters of [str(n)]. *)
Lemma str_of_int_chars (n : Z) :
  str_of_int n <> [] /\ Forall (fun c => is_number_char c = true) (str_of_int n).
Proof.
  assert (forall d, Forall (fun c => is_number_char c = true)
                           (py (NilEmpty.string_of_uint d))) as Hnum.
  { intros d. eapply Forall_impl; [apply digits_of_uint|].
    intros c Hc. unfold is_number_char. by rewrite Hc. }
  unfold str_of_int. destruct n as [|p|p].
  - split; [done|]. by repeat constructor.
  - simpl Z.to_int. simpl NilZero.string_of_int.
    destruct (nonnil_string _ (Unsigned.to_uint_nonnil p)) as [-> Hne]. by split.
  - simpl Z.to_int. simpl NilZero.string_of_int.
    change (py (String "-" (NilZero.string_of_uint (Pos.to_uint p))))
      with ("-"%char :: py (NilZero.string_of_uint (Pos.to_uint p))).
    destruct (nonnil_string _ (Unsigned.to_uint_nonnil p)) as [-> Hne].
    split; [done|]. by constructor.
Qed.

End NumberFacts.

(** A size given as an integer and the same size given as its decimal
    string produce the same URL: [int] reads back what [str] prints. *)
Theorem thumbnail_url_int_or_string (self : ImageFieldFile) (height width : Z) :
  int (VStr (str_of_int height)) = Return height /\
  thumbnail_url self (VStr (str_of_int height)) (VStr (str_of_int width))
  = thumbnail_url self (VInt height) (VInt width).
Proof.
  split; [apply int_of_str_of_int|].
  unfold thumbnail_url, size_segment.
  by rewrite !int_of_str_of_int.
Qed.

(** Whatever is passed as height and width, a URL that [thumbnail_url]
    returns is the base URL, [?FIF=], the name, at most one [&HEI=] and one
    [&WID=] segment, in this order, and [&CVT=JPEG]; a segment carries a
    decimal number and no other text of the argument. *)
Theorem thumbnail_url_segments (self : ImageFieldFile) (height width : value) (u : str) :
  thumbnail_url self height width = Return u ->
  exists b hei wid,
    base_url (storage self) = Some b /\
    u = b ++ py "?FIF=" ++ name self ++ hei ++ wid ++ py "&CVT=JPEG" /\
    clean_segment (py "&HEI=") hei /\ clean_segment (py "&WID=") wid.
Proof.
  assert (forall prefix x seg, size_segment prefix x = Return seg ->
            clean_segment prefix seg) as Hclean.
  { intros prefix x seg. unfold size_segment.
    destruct (int x) as [n|e].
    - intros [= <-]. right. exists (str_of_int n).
      destruct (str_of_int_chars n). by repeat split.
    - destruct e; intros [= <-]; by left. }
  unfold thumbnail_url, field_full_base_url, full_base_url.
  destruct (size_segment (py "&HEI=") height) as [hei|] eqn:Hh; [|done].
  destruct (size_segment (py "&WID=") width) as [wid|] eqn:Hw; [|done].
  simpl. destruct (base_url (storage self)) as [b|]; [|done].
  simpl. intros [= <-]. exists b, hei, wid.
  split; [done|]. split; [by rewrite <- !app_assoc|]. eauto.
Qed.

Lemma thumbnail_url_segments_witness :
  exists b hei wid,
    base_url (storage sample.handle) = Some b /\
    py "http://example.org/iip?FIF=a/abc.jp2&HEI=150&CVT=JPEG"
    = b ++ py "?FIF=" ++ name sample.handle ++ hei ++ wid ++ py "&CVT=JPEG" /\
    clean_segment (py "&HEI=") hei /\ clean_segment (py "&WID=") wid.
Proof.
  apply (thumbnail_url_segments sample.handle (VStr (py " 150 "))
           (VStr (py "200&FIF=other"))).
  reflexivity.
Defined.

Lemma thumbnail_url_finite_witness :
  thumbnail_url sample.handle (VStr (py "3.5")) (VFloat (S754_finite false 401 (-1)))
  = Return (py "http://example.org/iip?FIF=a/abc.jp2"
              ++ segment (py "&HEI=") (VStr (py "3.5"))
              ++ segment (py "&WID=") (VFloat (S754_finite false 401 (-1)))
              ++ py "&CVT=JPEG").
Proof.
  apply (thumbnail_url_finite sample.handle (VStr (py "3.5"))
           (VFloat (S754_finite false 401 (-1))) (py "http://example.org/iip")).
  - reflexivity.
  - discriminate.
  - discriminate.
Defined.

(** ** A storage without a base URL *)

(** Without a base URL nothing that needs a URL works, and nothing is
    sent: [thumbnail_url] raises for all arguments (the [ValueError] of
    [full_base_url], unless an infinite size has raised before), and every
    call of [_get_image_dimensions] on an object without cached dimensions
    raises that [ValueError], sends no request and caches nothing. *)
Theorem no_base_url (requests_get : str -> result str) (self : ImageFieldFile) :
  base_url (storage self) = None ->
  let error := ValueError (py "This file is not accessible via a URL.") in
  (forall height width,
      is_raise (thumbnail_url self height width) = true /\
      ((forall sign, height <> VFloat (S754_infinity sign)) ->
       (forall sign, width <> VFloat (S754_infinity sign)) ->
       thumbnail_url self height width = Raise error)) /\
  (_dimensions_cache self = None ->
   forall n sent,
     dimensions_calls requests_get n self sent = (replicate n (Raise error), self, sent)).
Proof.
  intros Hb error. split.
  - intros height width.
    assert (forall prefix x, (forall sign, x <> VFloat (S754_infinity sign)) ->
              exists seg, size_segment prefix x = Return seg) as Hseg.
    { intros prefix x Hx. unfold size_segment.
      destruct (int x) as [n|e] eqn:Hint; [by eexists|].
      destruct (int_raises _ _ Hint) as [[m ->]|[[m ->]|[m ->]]]; [by eexists..|].
      apply int_overflow in Hint as [[sign ->] _]. by destruct (Hx sign). }
    split.
    + unfold thumbnail_url, field_full_base_url, full_base_url. rewrite Hb.
      destruct (size_segment (py "&HEI=") height); [|done].
      by destruct (size_segment (py "&WID=") width).
    + intros Hh Hw. unfold thumbnail_url, field_full_base_url, full_base_url.
      destruct (Hseg (py "&HEI=") height Hh) as [hei ->].
      destruct (Hseg (py "&WID=") width Hw) as [wid ->].
      by rewrite Hb.
  - intros Hcache n sent. induction n as [|n IH]; [done|].
    cbn [dimensions_calls]. unfold _get_image_dimensions at 1, full_base_url.
    by rewrite Hcache, Hb, IH.
Qed.

Lemma no_base_url_witness :
  let self := FieldFile sample.unconfigured sample.key None in
  let error := ValueError (py "This file is not accessible via a URL.") in
  (forall height width,
      is_raise (thumbnail_url self height width) = true /\
      ((forall sign, height <> VFloat (S754_infinity sign)) ->
       (forall sign, width <> VFloat (S754_infinity sign)) ->
       thumbnail_url self height width = Raise error)) /\
  (_dimensions_cache self = None ->
   forall n sent,
     dimensions_calls sample.server n self sent = (replicate n (Raise error), self, sent)).
Proof.
  apply (no_base_url sample.server (FieldFile sample.unconfigured sample.key None)).
  reflexivity.
Defined.

(** ** Requests of the dimension probe *)

Section ProbeRequests.

Variable requests_get : str -> result str.

(** One call keeps the storage and the name of the object, and sends
    nothing or the one request for its dimension URL. *)
Lemma one_call_requests (self : ImageFieldFile) (sent : list str) :
  let '(r, self', sent') := _get_image_dimensions requests_get self sent in
  storage self' = storage self /\ name self' = name self /\
  (_dimensions_cache self = None \/ self' = self) /\
  (sent' = sent \/
   exists b, base_url (storage self) = Some b /\ _dimensions_cache self = None /\
             sent' = sent ++ [dimension_url b self]).
Proof.
  unfold _get_image_dimensions, full_base_url, dimension_url.
  destruct (_dimensions_cache self) as [cached|]; [by auto|].
  destruct (base_url (storage self)) as [b|]; [|by auto].
  rewrite <- !app_assoc.
  destruct (requests_get _) as [text|e]; [destruct (parse_dimensions text)|];
    simpl; (split; [done|]); (split; [done|]); (split; [by left|]);
    right; by exists b.
Qed.

(** However many times the dimensions are asked for, the object keeps its
    storage and its name, and the only requests sent are requests for its
    own dimension URL, at most one for each call (none without a base
    URL). *)
Theorem probe_requests_only_dimension_url (n : nat) (self : ImageFieldFile)
    (sent : list str) :
  let '(rs, self', sent') := dimensions_calls requests_get n self sent in
  length rs = n /\
  storage self' = storage self /\ name self' = name self /\
  exists k, (k <= n)%nat /\
    sent' = sent ++ replicate k (dimension_url (default [] (base_url (storage self))) self) /\
    (base_url (storage self) = None -> k = 0%nat).
Proof.
  revert self sent. induction n as [|n IH]; intros self sent.
  - simpl. repeat split. exists 0%nat. simpl. by rewrite app_nil_r.
  - cbn [dimensions_calls].
    pose proof (one_call_requests self sent) as H1.
    destruct (_get_image_dimensions requests_get self sent) as [[r self1] sent1].
    destruct H1 as (Hst & Hnm & _ & Hsent).
    specialize (IH self1 sent1).
    destruct (dimensions_calls requests_get n self1 sent1) as [[rs self2] sent2].
    destruct IH as (Hlen & Hst2 & Hnm2 & k & Hk & Hsent2 & Hnone).
    assert (dimension_url (default [] (base_url (storage self1))) self1
            = dimension_url (default [] (base_url (storage self))) self) as Hurl.
    { unfold dimension_url. by rewrite Hst, Hnm. }
    rewrite Hurl in Hsent2. rewrite Hst in Hnone.
    split; [simpl; by rewrite Hlen|]. split; [congruence|]. split; [congruence|].
    destruct Hsent as [->|(b & Hb & _ & ->)].
    + exists k. split; [lia|]. by split.
    + exists (S k). split; [lia|]. split; [|by rewrite Hb].
      rewrite Hsent2, Hb. simpl. by rewrite <- app_assoc.
Qed.

End ProbeRequests.

(** A request that fails is not remembered: the object is unchanged, and
    the next call sends the request again and caches what it then gets. *)
Theorem retry_after_failed_request
    (failing answering : str -> result str) self sent b e text :
  _dimensions_cache self = None ->
  base_url (storage self) = Some b ->
  failing (dimension_url b self) = Raise e ->
  answering (dimension_url b self) = Return text ->
  let '(r1, self1, sent1) := _get_image_dimensions failing self sent in
  let '(r2, self2, sent2) := _get_image_dimensions answering self1 sent1 in
  r1 = Raise e /\ self1 = self /\
  r2 = parse_dimensions text /\
  (exists dims, r2 = Return dims /\ _dimensions_cache self2 = Some dims) /\
  sent2 = sent ++ [dimension_url b self; dimension_url b self].
Proof.
  intros Hcache Hb Hfail Hanswer. unfold dimension_url in *.
  rewrite (failed_fetch_not_cached failing self sent e b Hcache Hb Hfail).
  unfold _get_image_dimensions, full_base_url. rewrite Hcache, Hb.
  rewrite <- !app_assoc in *. rewrite Hanswer.
  assert (exists p, parse_dimensions text = Return p) as [p Hp].
  { unfold parse_dimensions.
    destruct (re.exec max_size_pattern (strip text)) as [gs|] eqn:Hm; [|by eexists].
    apply match_sound in Hm
      as (pre & w & ws & h & post & -> & (_ & Hw0 & Hw & _ & _ & Hh0 & Hh) & _).
    rewrite (int_of_digits w), (int_of_digits h) by done. by eexists. }
  rewrite Hp. simpl. split; [done|]. split; [done|]. split; [done|].
  split; [by exists p|]. by rewrite <- ?app_assoc.
Qed.

Lemma retry_after_failed_request_witness :
  let '(r1, self1, sent1) := _get_image_dimensions demo.unreachable sample.handle [] in
  let '(r2, self2, sent2) := _get_image_dimensions sample.server self1 sent1 in
  r1 = Raise (RequestException (py "Connection refused")) /\ self1 = sample.handle /\
  r2 = parse_dimensions (py "Max-size:1024 768") /\
  (exists dims, r2 = Return dims /\ _dimensions_cache self2 = Some dims) /\
  sent2 = [] ++ [dimension_url (py "http://example.org/iip") sample.handle;
                 dimension_url (py "http://example.org/iip") sample.handle].
Proof.
  apply (retry_after_failed_request demo.unreachable sample.server sample.handle []
           (py "http://example.org/iip")
           (RequestException (py "Connection refused")) (py "Max-size:1024 768"));
    reflexivity.
Defined.

(** ** What the probe returns *)

Section ProbeValues.

Lemma digit_value_bounds (c : ascii) : is_digit c = true -> 0 <= digit_value c <= 9.
Proof.
  destruct c as [[] [] [] [] [] [] [] []]; try discriminate; intros _; vm_compute;
    split; discriminate.
Qed.

Lemma decimal_value_nonneg (ds : str) :
  Forall (fun c => is_digit c = true) ds -> 0 <= decimal_value ds.
Proof.
  unfold decimal_value.
  assert (forall acc, 0 <= acc -> Forall (fun c => is_digit c = true) ds ->
            0 <= fold_left (fun a c => 10 * a + digit_value c) ds acc) as H.
  { induction ds as [|c ds IH]; intros acc Hacc Hds; simpl; [done|].
    apply Forall_cons in Hds as [Hc Hds]. apply IH; [|done].
    pose proof (digit_value_bounds c Hc). lia. }
  by apply H.
Qed.

(** The pair that is parsed out of a response, whatever the response. *)
Lemma parse_dimensions_nonneg (text : str) :
  exists width height,
    parse_dimensions text = Return (width, height) /\ 0 <= width /\ 0 <= height.
Proof.
  unfold parse_dimensions.
  destruct (re.exec max_size_pattern (strip text)) as [gs|] eqn:Hm.
  - apply match_sound in Hm
      as (pre & w & ws & h & post & -> & (_ & Hw0 & Hw & _ & _ & Hh0 & Hh) & _).
    rewrite (int_of_digits w), (int_of_digits h) by done. simpl.
    exists (decimal_value w), (decimal_value h).
    split; [done|]. split; by apply decimal_value_nonneg.
  - exists 0, 0. by repeat split.
Qed.

Lemma skip_all f (a b : str) :
  Forall (fun c => f c = true) a -> skip f (a ++ b) = skip f b.
Proof. induction 1 as [|c a Hc _ IH]; simpl; [done|]. by rewrite Hc. Qed.

Lemma skip_nil_all f (a : str) : skip f a = [] -> Forall (fun c => f c = true) a.
Proof.
  induction a as [|c a IH]; simpl; [constructor|].
  destruct (f c) eqn:Hc; [|done]. intros H. constructor; [done|by apply IH].
Qed.

Lemma skip_app f (a b : str) : skip f a <> [] -> skip f (a ++ b) = skip f a ++ b.
Proof.
  induction a as [|c a IH]; simpl; [done|].
  destruct (f c); [exact IH|done].
Qed.

Lemma Forall_rev_str (P : ascii -> Prop) (l : str) : Forall P l -> Forall P (rev l).
Proof.
  rewrite !Forall_forall. intros H x Hx. apply H.
  apply list_elem_of_In, in_rev. by apply list_elem_of_In.
Qed.

(** Whitespace around a text does not survive [strip]. *)
Lemma strip_surrounded (lead text trail : str) :
  Forall (fun c => is_unicode_space c = true) lead ->
  Forall (fun c => is_unicode_space c = true) trail ->
  strip (lead ++ text ++ trail) = strip text.
Proof.
  intros Hlead Htrail. unfold strip. rewrite (skip_all _ _ _ Hlead).
  destruct (skip is_unicode_space text) as [|c t'] eqn:Hskip.
  - apply skip_nil_all in Hskip.
    rewrite (skip_all _ text trail Hskip).
    rewrite <- (app_nil_r trail), (skip_all _ trail [] Htrail). by simpl.
  - rewrite skip_app by (by rewrite Hskip). rewrite Hskip.
    rewrite rev_app_distr. by rewrite (skip_all _ _ _ (Forall_rev_str _ _ Htrail)).
Qed.

End ProbeValues.

(** When its request is answered, a first call of [_get_image_dimensions]
    returns a pair of numbers that are not negative, whatever the answer
    is, and caches that pair. *)
Theorem probe_dimensions_nonnegative
    (requests_get : str -> result str) self sent b text :
  _dimensions_cache self = None ->
  base_url (storage self) = Some b ->
  requests_get (dimension_url b self) = Return text ->
  let '(r, self', sent') := _get_image_dimensions requests_get self sent in
  exists width height,
    r = Return (width, height) /\ 0 <= width /\ 0 <= height /\
    _dimensions_cache self' = Some (width, height).
Proof.
  intros Hcache Hb Hget. unfold dimension_url in Hget.
  unfold _get_image_dimensions, full_base_url. rewrite Hcache, Hb.
  rewrite <- !app_assoc. rewrite Hget.
  destruct (parse_dimensions_nonneg text) as (width & height & -> & Hw & Hh).
  by exists width, height.
Qed.

Lemma probe_dimensions_nonnegative_witness :
  let '(r, self', sent') := _get_image_dimensions sample.verbose sample.handle [] in
  exists width height,
    r = Return (width, height) /\ 0 <= width /\ 0 <= height /\
    _dimensions_cache self' = Some (width, height).
Proof.
  apply (probe_dimensions_nonnegative sample.verbose sample.handle []
           (py "http://example.org/iip") (py "foo Max-size:1024 768 bar"));
    reflexivity.
Defined.

(** Blank characters and line ends before and after the response do not
    change what is parsed from it. *)
Theorem parse_ignores_surrounding_whitespace (lead text trail : str) :
  Forall (fun c => is_unicode_space c = true) lead ->
  Forall (fun c => is_unicode_space c = true) trail ->
  parse_dimensions (lead ++ text ++ trail) = parse_dimensions text.
Proof.
  intros Hlead Htrail. unfold parse_dimensions.
  by rewrite strip_surrounded.
Qed.

Lemma parse_ignores_surrounding_whitespace_witness :
  parse_dimensions ([] ++ py "Max-size:1024 768" ++ [ascii_of_nat 13; ascii_of_nat 10])
  = parse_dimensions (py "Max-size:1024 768").
Proof.
  apply parse_ignores_surrounding_whitespace; by repeat constructor.
Defined.
